(** * golem_messages.cryptography: ECIES, the concatenation KDF and
      recoverable ECDSA, as a shallow embedding

    The module under study is [golem_messages/cryptography.py].  Its
    logic is framing: slicing byte strings, ordering the inputs of the
    hash and MAC calls, asserting lengths, and raising the package's
    exceptions.  The elliptic-curve, hash and cipher primitives come
    from external libraries (pyelliptic, coincurve, bitcoin, hashlib,
    _pysha3); they are collected in the record [Providers] and every
    call into them is recorded in a call log, so that statements such as
    "fails before any primitive is invoked" or "the KDF hashes n times"
    can be stated and proved.  The search for OpenSSL at import time and
    [mk_privkey] take no part in the properties below and are left out. *)

From Stdlib Require Import String ZArith NArith QArith Bool List Lia.
From Stdlib Require Import Strings.Byte.
Import ListNotations.
Open Scope Z_scope.

Set Implicit Arguments.

(* ------------------------------------------------------------------ *)
(** ** Python values used by the module *)

(** [bytes] objects. *)
Definition bytes := list byte.

(** [len(b)] as a Python integer. *)
Definition len {A} (l : list A) : Z := Z.of_nat (length l).

(** A Python [str]: a sequence of Unicode code points. *)
Definition pystr := list N.

(** An argument that may be text or bytes ([isinstance(seed, str)]). *)
Inductive pyobj :=
| PyStr (s : pystr)
| PyBytes (b : bytes).

Definition byte_of_N (n : N) : byte :=
  match Byte.of_N (n mod 256) with
  | Some b => b
  | None => x00
  end.

Definition byte_of_Z (z : Z) : byte := byte_of_N (Z.to_N (z mod 256)).

(** *** Slices

    [l[lo:hi]] with Python's treatment of absent, negative and
    out-of-range bounds. *)
Definition slice_index (n i : Z) : Z :=
  if i <? 0 then Z.max 0 (i + n) else Z.min i n.

Definition slice {A} (lo hi : option Z) (l : list A) : list A :=
  let n := len l in
  let a := match lo with Some i => slice_index n i | None => 0 end in
  let b := match hi with Some j => slice_index n j | None => n end in
  firstn (Z.to_nat (b - a)) (skipn (Z.to_nat a) l).

(** [l[:hi]], [l[lo:]] and [l[lo:hi]]. *)
Definition upto {A} (hi : Z) (l : list A) := slice None (Some hi) l.
Definition from {A} (lo : Z) (l : list A) := slice (Some lo) None l.
Definition between {A} (lo hi : Z) (l : list A) := slice (Some lo) (Some hi) l.

(** [rlp.utils.str_to_bytes] on a value that is already [bytes], and
    [rlp.utils.ascii_chr]. *)
Definition str_to_bytes (b : bytes) : bytes := b.
Definition ascii_chr (v : Z) : bytes := [byte_of_Z v].

(* ------------------------------------------------------------------ *)
(** ** Exceptions

    An exception is its class and its constructor arguments.  The
    classes of [golem_messages.exceptions] are known by the names the
    module raises them under. *)
Inductive exn_class :=
| InvalidKeys
| InvalidSignature
| CoincurveError
| DecryptionError
| CryptoError
| AssertionError
| StructError          (* struct.error *)
| OverflowError
| UnicodeEncodeError
| LibraryError.        (* any exception raised inside a provider *)

Record exn := Exn { exn_kind : exn_class; exn_args : list string }.

Definition exn_class_eqb (a b : exn_class) : bool :=
  match a, b with
  | InvalidKeys, InvalidKeys | InvalidSignature, InvalidSignature
  | CoincurveError, CoincurveError | DecryptionError, DecryptionError
  | CryptoError, CryptoError | AssertionError, AssertionError
  | StructError, StructError | OverflowError, OverflowError
  | UnicodeEncodeError, UnicodeEncodeError | LibraryError, LibraryError => true
  | _, _ => false
  end.

(** The outcome of a call: a value, a raised exception, or no outcome:
    a loop whose fuel ran out, or a random source with nothing left to
    hand out. *)
Inductive result (A : Type) :=
| Ok (a : A)
| Raise (e : exn)
| OutOfFuel.
Arguments Raise {A} e.
Arguments OutOfFuel {A}.

(* ------------------------------------------------------------------ *)
(** ** The world: call log and random source *)

(** Calls into the external libraries, with their arguments. *)
Inductive prim_call :=
| call_sha256 (data : bytes)
| call_sha3_256 (data : bytes)
| call_hmac_sha256 (key msg : bytes)
| call_equals (a b : bytes)
| call_get_blocksize
| call_gen_IV
| call_ciphering (key iv : bytes) (direction : Z) (data : bytes)
| call_ecdh (priv x y : bytes)
| call_check_key (priv x y : bytes)
| call_ecc_init (x y priv : option bytes)
| call_get_privkey_format (priv : bytes)
| call_privtopub (priv : bytes)
| call_private_key (priv : bytes)
| call_sign_recoverable (priv digest : bytes)
| call_recover (sig digest : bytes).

(** The three attributes of a [pyelliptic.ECC] object. *)
Record ECC := mkECC { privkey : bytes; pubkey_x : bytes; pubkey_y : bytes }.

(** [calls] grows at its end.  [keygen] and [ivs] are what the random
    source will hand out next: key pairs to [ECC._generate], IVs to
    [Cipher.gen_IV]. *)
Record world := mkWorld {
  calls : list prim_call;
  keygen : list ECC;
  ivs : list bytes
}.

Definition M (A : Type) := world -> result A * world.

Definition ret {A} (a : A) : M A := fun w => (Ok a, w).

Definition bind {A B} (c : M A) (f : A -> M B) : M B :=
  fun w =>
    match c w with
    | (Ok a, w') => f a w'
    | (Raise e, w') => (Raise e, w')
    | (OutOfFuel, w') => (OutOfFuel, w')
    end.

Definition raise {A} (k : exn_class) (args : list string) : M A :=
  fun w => (Raise (Exn k args), w).

Definition out_of_fuel {A} : M A := fun w => (OutOfFuel, w).

(** A result computed without touching the world. *)
Definition lift {A} (r : result A) : M A := fun w => (r, w).

(** [assert cond]. *)
Definition assert (cond : bool) : M unit :=
  if cond then ret tt else raise AssertionError [].

(** [try: body / except Exception: handler]. *)
Definition try_except {A} (body : M A) (handler : exn -> M A) : M A :=
  fun w =>
    match body w with
    | (Raise e, w') => handler e w'
    | r => r
    end.

(** The world after further calls; the random source is untouched. *)
Definition with_calls (cs : list prim_call) (w : world) : world :=
  mkWorld (calls w ++ cs) (keygen w) (ivs w).

Definition log (c : prim_call) : M unit :=
  fun w => (Ok tt, with_calls [c] w).

Declare Scope py_scope.
Delimit Scope py_scope with py.
Notation "x <- c ;; k" := (bind c (fun x => k))
  (at level 61, c at next level, right associativity) : py_scope.
Notation "c ;; k" := (bind c (fun _ => k))
  (at level 61, right associativity) : py_scope.
Notation "' pat <- c ;; k" :=
  (bind c (fun x => match x with pat => k end))
  (at level 61, pat pattern, c at next level, right associativity) : py_scope.
Open Scope py_scope.

(** [except cls:] catches the exceptions selected by [catches]. *)
Definition try_except_if {A} (catches : exn -> bool) (body : M A)
    (handler : exn -> M A) : M A :=
  fun w =>
    match body w with
    | (Raise e, w') => if catches e then handler e w' else (Raise e, w')
    | r => r
    end.

(* ------------------------------------------------------------------ *)
(** ** Builtins: truth and equality of [bytes], [str.encode],
       [struct.pack], true division *)

(** Truth value of a [bytes] object: non-empty. *)
Definition truthy (b : bytes) : bool :=
  match b with [] => false | _ => true end.

(** [a == b] on [bytes]. *)
Definition bytes_eqb (a b : bytes) : bool :=
  if list_eq_dec Byte.byte_eq_dec a b then true else false.

(** UTF-8 encoding of one code point; lone surrogates are refused. *)
Definition utf8_encode_cp (c : N) : result bytes :=
  (if c <? 128 then Ok [byte_of_N c]
   else if c <? 2048 then
     Ok [byte_of_N (192 + c / 64); byte_of_N (128 + c mod 64)]
   else if (55296 <=? c) && (c <=? 57343) then
     Raise (Exn UnicodeEncodeError ["surrogates not allowed"%string])
   else if c <? 65536 then
     Ok [byte_of_N (224 + c / 4096); byte_of_N (128 + (c / 64) mod 64);
         byte_of_N (128 + c mod 64)]
   else
     Ok [byte_of_N (240 + c / 262144); byte_of_N (128 + (c / 4096) mod 64);
         byte_of_N (128 + (c / 64) mod 64); byte_of_N (128 + c mod 64)])%N.

(** [s.encode()]. *)
Fixpoint str_encode (s : pystr) : result bytes :=
  match s with
  | [] => Ok []
  | c :: s' =>
      match utf8_encode_cp c with
      | Ok b => match str_encode s' with
                | Ok bs => Ok (b ++ bs)
                | r => r
                end
      | r => r
      end
  end.

(** [struct.pack('>I', v)]: four bytes, big-endian; [struct.error]
    outside 0 .. 2^32 - 1. *)
Definition be32 (v : Z) : bytes :=
  [byte_of_Z (v / 16777216); byte_of_Z (v / 65536);
   byte_of_Z (v / 256); byte_of_Z v].

Definition struct_pack_I (v : Z) : result bytes :=
  if (0 <=? v) && (v <=? 4294967295) then Ok (be32 v)
  else Raise (Exn StructError ["argument out of range"%string]).

(** [a / b] on integers, b > 0, is a float.  The quotient is kept as the
    exact rational: where the loop below compares it with a counter
    (never above 2^32) rounding to a double cannot change the outcome,
    since a quotient that is not exactly representable exceeds 2^44.
    A quotient beyond the range of a double raises [OverflowError]. *)
Definition double_limit : Z := 2 ^ 1024 - 2 ^ 970.

Definition true_div (a : Z) (b : positive) : result Q :=
  if double_limit * Z.pos b <=? Z.abs a
  then Raise (Exn OverflowError
                ["integer division result too large for a float"%string])
  else Ok (a # b).

(* ------------------------------------------------------------------ *)
(** ** External libraries *)

Record Providers := {
  (** [hashlib.sha256(x).digest()] *)
  sha256 : bytes -> bytes;
  (** [_pysha3.sha3_256(x).digest()] *)
  sha3_256 : bytes -> bytes;
  (** [pyelliptic.hmac_sha256(k, m)] *)
  hmac_sha256 : bytes -> bytes -> bytes;
  (** [pyelliptic.equals(a, b)] *)
  equals : bytes -> bytes -> bool;
  (** [pyelliptic.OpenSSL.get_cipher('aes-128-ctr').get_blocksize()] *)
  get_blocksize : Z;
  (** [pyelliptic.Cipher(key, iv, do, 'aes-128-ctr').ciphering(data)] *)
  ciphering : bytes -> bytes -> Z -> bytes -> result bytes;
  (** [ECC.raw_get_ecdh_key(pubkey_x, pubkey_y)] on an object whose
      private key is the first argument *)
  raw_get_ecdh_key : bytes -> bytes -> bytes -> result bytes;
  (** [ECC.raw_check_key(privkey, pubkey_x, pubkey_y)] *)
  raw_check_key : bytes -> bytes -> bytes -> result Z;
  (** [pyelliptic.ECC.__init__] when it is given both coordinates *)
  ecc_set_keys : bytes -> bytes -> bytes -> result ECC;
  (** [bitcoin.get_privkey_format(k)]; only whether it raises matters *)
  get_privkey_format : bytes -> result unit;
  (** [bitcoin.encode_pubkey(bitcoin.privtopub(k), 'bin_electrum')] *)
  bitcoin_privtopub : bytes -> result bytes;
  (** [coincurve.PrivateKey(k)]; only whether it raises matters *)
  private_key : bytes -> result unit;
  (** [pk.sign_recoverable(h, hasher=None)] for [pk] made from [k] *)
  sign_recoverable : bytes -> bytes -> result bytes;
  (** [coincurve.PublicKey.from_signature_and_message(sig, h,
      hasher=None).format(compressed=False)] *)
  recover : bytes -> bytes -> result bytes
}.

(* ------------------------------------------------------------------ *)
(** ** The module *)

Section Program.

Variable P : Providers.

(** *** Calls into the libraries, logged *)

Definition hashlib_sha256 (x : bytes) : M bytes :=
  log (call_sha256 x) ;; ret (sha256 P x).

Definition _sha3_256 (x : bytes) : M bytes :=
  log (call_sha3_256 x) ;; ret (sha3_256 P x).

Definition pyelliptic_hmac_sha256 (k m : bytes) : M bytes :=
  log (call_hmac_sha256 k m) ;; ret (hmac_sha256 P k m).

Definition pyelliptic_equals (a b : bytes) : M bool :=
  log (call_equals a b) ;; ret (equals P a b).

Definition pyelliptic_get_blocksize : M Z :=
  log call_get_blocksize ;; ret (get_blocksize P).

Definition pyelliptic_ciphering (key iv : bytes) (direction : Z)
    (data : bytes) : M bytes :=
  log (call_ciphering key iv direction data) ;;
  lift (ciphering P key iv direction data).

Definition pyelliptic_gen_IV : M bytes :=
  log call_gen_IV ;;
  fun w =>
    match ivs w with
    | [] => (OutOfFuel, w)
    | iv :: rest => (Ok iv, mkWorld (calls w) (keygen w) rest)
    end.

Definition ecc_raw_get_ecdh_key (self : ECC) (x y : bytes) : M bytes :=
  log (call_ecdh (privkey self) x y) ;;
  lift (raw_get_ecdh_key P (privkey self) x y).

Definition ecc_raw_check_key (priv x y : bytes) : M Z :=
  log (call_check_key priv x y) ;; lift (raw_check_key P priv x y).

(** [pyelliptic.ECC.__init__(pubkey_x=.., pubkey_y=.., raw_privkey=..)]:
    with the keys given they are taken over after the library's check,
    with none a key pair is generated (the module passes all three or
    none). *)
Definition ECC_init (x y priv : option bytes) : M ECC :=
  log (call_ecc_init x y priv) ;;
  match x, y, priv with
  | Some x, Some y, Some priv => lift (ecc_set_keys P x y priv)
  | _, _, _ =>
      fun w =>
        match keygen w with
        | [] => (OutOfFuel, w)
        | k :: rest => (Ok k, mkWorld (calls w) rest (ivs w))
        end
  end.

Definition bitcoin_get_privkey_format (priv : bytes) : M unit :=
  log (call_get_privkey_format priv) ;; lift (get_privkey_format P priv).

Definition bitcoin_encode_privtopub (priv : bytes) : M bytes :=
  log (call_privtopub priv) ;; lift (bitcoin_privtopub P priv).

Definition coincurve_PrivateKey (priv : bytes) : M bytes :=
  log (call_private_key priv) ;;
  _ <- lift (private_key P priv) ;; ret priv.

Definition coincurve_sign_recoverable (pk digest : bytes) : M bytes :=
  log (call_sign_recoverable pk digest) ;;
  lift (sign_recoverable P pk digest).

Definition coincurve_recover (sig digest : bytes) : M bytes :=
  log (call_recover sig digest) ;; lift (recover P sig digest).

(** *** Module-level functions *)

Definition verify_pubkey (key : bytes) : result unit :=
  if negb (len key =? 64)
  then Raise (Exn InvalidKeys ["Invalid pubkey length"%string])
  else Ok tt.

Definition privtopub (raw_privkey : bytes) : M bytes :=
  raw_pubkey <- bitcoin_encode_privtopub raw_privkey ;;
  lift (verify_pubkey raw_pubkey) ;;
  ret raw_pubkey.

(** The [while counter <= reps] loop of [eciesKDF]; one unit of fuel per
    turn. *)
Fixpoint eciesKDF_loop (fuel : nat) (reps : Q) (key_material s1 : bytes)
    (counter : Z) (key : bytes) : M bytes :=
  if Qle_bool (inject_Z counter) reps then
    match fuel with
    | O => out_of_fuel
    | S fuel' =>
        let counter := counter + 1 in
        packed <- lift (struct_pack_I counter) ;;
        digest <- hashlib_sha256 (packed ++ key_material ++ s1) ;;
        eciesKDF_loop fuel' reps key_material s1 counter (key ++ digest)
    end
  else ret key.

(** The loop takes floor(reps) + 1 turns at most, which is the fuel it
    is given; [eciesKDF_total] below shows the fuel is never used up. *)
Definition eciesKDF (key_material : bytes) (key_len : Z) : M bytes :=
  let s1 : bytes := [] in
  let key : bytes := [] in
  let hash_blocksize := 64%positive in
  reps <- lift (true_div ((key_len + 7) * 8) (hash_blocksize * 8)) ;;
  let counter := 0 in
  key <- eciesKDF_loop (Z.to_nat ((key_len + 7) * 8 / 512 + 1))
           reps key_material s1 counter key ;;
  ret (upto key_len key).

Definition sha3 (seed : pyobj) : M bytes :=
  seed <- match seed with
          | PyStr s => lift (str_encode s)
          | PyBytes b => ret b
          end ;;
  _sha3_256 seed.

Definition ecdsa_sign (privkey : bytes) (msghash : pyobj) : M bytes :=
  pk <- coincurve_PrivateKey privkey ;;
  msghash <- sha3 msghash ;;
  coincurve_sign_recoverable pk msghash.

Definition ecdsa_verify (pubkey signature : bytes) (message : pyobj)
    : M bool :=
  lift (verify_pubkey pubkey) ;;
  message <- sha3 message ;;
  pk <- try_except (coincurve_recover signature message)
          (fun _ => raise CoincurveError []) ;;
  if negb (bytes_eqb pk ([x04] ++ pubkey))
  then raise InvalidSignature []
  else ret true.

End Program.

(** *** class ECCx(pyelliptic.ECC) *)

Module ECCx.
Section Methods.

Variable P : Providers.

(** An [ECCx] object carries the attributes of its base class. *)
Definition t := ECC.

Definition ecies_ciphername : string := "aes-128-ctr".
Definition curve : string := "secp256k1".
Definition ecies_encrypt_overhead_length : Z := 113.

(** The property [raw_pubkey]. *)
Definition raw_pubkey (self : t) : bytes :=
  if truthy (pubkey_x self) && truthy (pubkey_y self)
  then str_to_bytes (pubkey_x self ++ pubkey_y self)
  else pubkey_x self ++ pubkey_y self.

(** The property [raw_privkey]. *)
Definition raw_privkey (self : t) : bytes :=
  if negb (truthy (privkey self)) then privkey self
  else str_to_bytes (privkey self).

Definition _decode_pubkey (raw_pubkey : bytes)
    : result (string * bytes * bytes * Z) :=
  match verify_pubkey raw_pubkey with
  | Ok _ =>
      let pubkey_x := upto 32 raw_pubkey in
      let pubkey_y := from 32 raw_pubkey in
      Ok (curve, pubkey_x, pubkey_y, 64)
  | Raise e => Raise e
  | OutOfFuel => OutOfFuel
  end.

Definition is_AssertionError (e : exn) : bool :=
  exn_class_eqb (exn_kind e) AssertionError.

Definition has_valid_keys (self : t) : M bool :=
  try_except
    (try_except_if is_AssertionError
       (bitcoin_get_privkey_format P (raw_privkey self))
       (fun _ => raise InvalidKeys ["Invalid privkey"%string]) ;;
     lift (verify_pubkey (raw_pubkey self)) ;;
     let priv := raw_privkey self in
     '(_, x, y, _) <- lift (_decode_pubkey (raw_pubkey self)) ;;
     raw_check_result <- ecc_raw_check_key P priv x y ;;
     (if negb (raw_check_result =? 0) then raise InvalidKeys [] else ret tt) ;;
     ret true)
    (fun _ => ret false).

(** The [while True] loop of [__init__]; one unit of fuel per turn. *)
Fixpoint init_loop (fuel : nat) (x y priv : option bytes) : M t :=
  match fuel with
  | O => out_of_fuel
  | S fuel' =>
      self <- ECC_init P x y priv ;;
      if truthy (raw_privkey self) && negb (len (raw_privkey self) =? 32)
      then init_loop fuel' x y priv
      else
        ok <- has_valid_keys self ;;
        if negb ok
        then raise CryptoError ["Invalid privkey and/or pubkey"%string]
        else ret self
  end.

(** [ECCx(raw_privkey)].  With a key given, a turn of the loop that
    ends in [continue] is followed by an identical turn, for ever; with
    none, every turn draws a fresh pair from the random source.  One
    more unit of fuel than pairs left is therefore enough: the fuel runs
    out only where the program does not return. *)
Definition __init__ (raw_privkey : option bytes) : M t :=
  '(pubkey_x, pubkey_y) <-
     match raw_privkey with
     | Some k =>
         raw_pubkey <- privtopub P k ;;
         lift (verify_pubkey raw_pubkey) ;;
         '(_, pubkey_x, pubkey_y, _) <- lift (_decode_pubkey raw_pubkey) ;;
         ret (Some pubkey_x, Some pubkey_y)
     | None => ret (None, None)
     end ;;
  fun w => init_loop (S (length (keygen w))) pubkey_x pubkey_y raw_privkey w.

(** The parameter [raw_pubkey] of the source is [raw_pubkey_] here, to
    keep it apart from the property of that name. *)
Definition ecies_encrypt (data raw_pubkey_ shared_mac_data : bytes)
    : M bytes :=
  (* 1) generate r = random value *)
  ephem <- __init__ None ;;
  (* 2) generate shared-secret = kdf( ecdhAgree(r, P) ) *)
  key_material <- ecc_raw_get_ecdh_key P ephem
                    (upto 32 raw_pubkey_) (from 32 raw_pubkey_) ;;
  assert (len key_material =? 32) ;;
  key <- eciesKDF P key_material 32 ;;
  assert (len key =? 32) ;;
  let key_enc := upto 16 key in
  let key_mac := from 16 key in
  key_mac <- hashlib_sha256 P key_mac ;;
  assert (len key_mac =? 32) ;;
  (* encrypt *)
  iv <- pyelliptic_gen_IV ;;
  assert (len iv =? 16) ;;
  ciphertext <- pyelliptic_ciphering P key_enc iv 1 data ;;
  assert (len ciphertext =? len data) ;;
  (* 4) send 0x04 || R || AsymmetricEncrypt(shared-secret, plaintext) || tag *)
  let msg := ascii_chr 4 ++ raw_pubkey ephem ++ iv ++ ciphertext in
  (* the MAC of a message (called the tag) as per SEC 1, 3.5. *)
  tag <- pyelliptic_hmac_sha256 P key_mac
           (from (1 + 64) msg ++ str_to_bytes shared_mac_data) ;;
  assert (len tag =? 32) ;;
  let msg := msg ++ tag in
  assert ((len msg =? 1 + 64 + 16 + 32 + len data)
          && (1 + 64 + 16 + 32 + len data =? 113 + len data)) ;;
  assert (len msg - ecies_encrypt_overhead_length =? len data) ;;
  ret msg.

Definition ecies_decrypt (self : t) (data shared_mac_data : bytes)
    : M bytes :=
  (if negb (bytes_eqb (upto 1 data) [x04])
   then raise DecryptionError ["wrong ecies header"%string]
   else ret tt) ;;
  (* 1) generate shared-secret = kdf( ecdhAgree(myPrivKey, msg[1:65]) ) *)
  let _shared := between 1 (1 + 64) data in
  key_material <- ecc_raw_get_ecdh_key P self
                    (upto 32 _shared) (from 32 _shared) ;;
  assert (len key_material =? 32) ;;
  key <- eciesKDF P key_material 32 ;;
  assert (len key =? 32) ;;
  let key_enc := upto 16 key in
  let key_mac := from 16 key in
  key_mac <- hashlib_sha256 P key_mac ;;
  assert (len key_mac =? 32) ;;
  let tag := from (-32) data in
  assert (len tag =? 32) ;;
  (* 2) verify tag *)
  hmaced_data <- pyelliptic_hmac_sha256 P key_mac
                   (between (1 + 64) (-32) data ++ shared_mac_data) ;;
  ok <- pyelliptic_equals P hmaced_data tag ;;
  (if negb ok
   then raise DecryptionError ["Fail to verify data"%string]
   else ret tt) ;;
  (* 3) decrypt *)
  blocksize <- pyelliptic_get_blocksize P ;;
  let iv := between (1 + 64) (1 + 64 + blocksize) data in
  assert (len iv =? 16) ;;
  let ciphertext := between (1 + 64 + blocksize) (-32) data in
  assert (1 + len _shared + len iv + len ciphertext + len tag =? len data) ;;
  pyelliptic_ciphering P key_enc iv 0 ciphertext.

Definition encrypt := ecies_encrypt.
Definition decrypt := ecies_decrypt.

Definition sign (self : t) (inputb : pyobj) : M bytes :=
  signature <- ecdsa_sign P (raw_privkey self) inputb ;;
  assert (len signature =? 65) ;;
  ret signature.

Definition verify (self : t) (sig : bytes) (inputb : pyobj) : M bool :=
  if negb (len sig =? 65)
  then raise InvalidSignature ["Invalid length"%string]
  else ecdsa_verify P (raw_pubkey self) sig inputb.

End Methods.
End ECCx.

(* ------------------------------------------------------------------ *)
(** ** A small instance of the libraries

    Runs of the module need some [Providers].  This one is built from
    xor and a rolling checksum: it has the shape the module relies on
    (32-byte digests, a length-preserving cipher that undoes itself, a
    key agreement that both sides compute alike, signatures that recover
    to the signer) and it evaluates inside Rocq. *)

Module Toy.

Definition bxor (a b : byte) : byte :=
  byte_of_N (N.lxor (Byte.to_N a) (Byte.to_N b)).

Fixpoint xor_bytes (a b : bytes) : bytes :=
  match a, b with
  | x :: a', y :: b' => bxor x y :: xor_bytes a' b'
  | _, _ => []
  end.

Definition checksum (x : bytes) : N :=
  fold_left (fun acc b => (acc * 31 + Byte.to_N b + 1) mod 65521)%N x 7%N.

Definition digest (salt : N) (x : bytes) : bytes :=
  map (fun i => byte_of_N (checksum x + salt * N.of_nat i)) (seq 0 32).

Definition library_error {A} : result A := Raise (Exn LibraryError []).

(** Public key of [k]: both coordinates are [k] itself. *)
Definition check_key (priv x y : bytes) : result Z :=
  if (len priv =? 32) && bytes_eqb x priv && bytes_eqb y priv
  then Ok 0 else library_error.

Definition ecdh (priv x y : bytes) : result bytes :=
  if (len priv =? 32) && (len x =? 32) && bytes_eqb x y
  then Ok (xor_bytes priv x) else library_error.

Definition cipher (key iv : bytes) (direction : Z) (data : bytes)
    : result bytes :=
  if (len key =? 16) && (len iv =? 16)
  then Ok (map (bxor (byte_of_N (checksum (key ++ iv)))) data)
  else library_error.

Definition pad32 (h : bytes) : bytes := firstn 32 (h ++ repeat x00 32).

Definition sign_with (priv digest : bytes) : result bytes :=
  if len priv =? 32 then Ok (priv ++ pad32 digest ++ [x00])
  else library_error.

Definition recover_from (sig digest : bytes) : result bytes :=
  if (len sig =? 65) && bytes_eqb (between 32 64 sig) (pad32 digest)
  then Ok ([x04] ++ upto 32 sig ++ upto 32 sig)
  else library_error.

Definition providers : Providers := {|
  sha256 := digest 1;
  sha3_256 := digest 2;
  hmac_sha256 := fun k m => digest 3 (k ++ [xff] ++ m);
  equals := bytes_eqb;
  get_blocksize := 16;
  ciphering := cipher;
  raw_get_ecdh_key := ecdh;
  raw_check_key := check_key;
  ecc_set_keys := fun x y priv =>
    match check_key priv x y with
    | Ok _ => Ok (mkECC priv x y)
    | Raise e => Raise e
    | OutOfFuel => OutOfFuel
    end;
  get_privkey_format := fun k =>
    if (len k =? 32) || (len k =? 33) || (len k =? 64) || (len k =? 66)
    then Ok tt else library_error;
  bitcoin_privtopub := fun k =>
    if len k =? 32 then Ok (k ++ k) else library_error;
  private_key := fun k => if len k =? 32 then Ok tt else library_error;
  sign_recoverable := sign_with;
  recover := recover_from
|}.

(** A base class and a [bitcoin] that take a private key of any length:
    the key's first 32 bytes (zero padded) serve as both coordinates. *)
Definition lenient : Providers := {|
  sha256 := digest 1;
  sha3_256 := digest 2;
  hmac_sha256 := fun k m => digest 3 (k ++ [xff] ++ m);
  equals := bytes_eqb;
  get_blocksize := 16;
  ciphering := cipher;
  raw_get_ecdh_key := ecdh;
  raw_check_key := check_key;
  ecc_set_keys := fun x y priv => Ok (mkECC priv x y);
  get_privkey_format := fun _ => Ok tt;
  bitcoin_privtopub := fun k => Ok (pad32 k ++ pad32 k);
  private_key := fun k => if len k =? 32 then Ok tt else library_error;
  sign_recoverable := sign_with;
  recover := recover_from
|}.

(** Two private keys, a 31-byte string that the constructor will not
    keep as one, an IV, and a world whose random source will hand out
    the pair of the short string, then the pair of [key_b], and [iv0]. *)
Definition key_a : bytes := map (fun i => byte_of_N (N.of_nat i)) (seq 1 32).
Definition key_b : bytes := map (fun i => byte_of_N (N.of_nat i)) (seq 101 32).
Definition key_short : bytes := map (fun i => byte_of_N (N.of_nat i)) (seq 50 31).
Definition iv0 : bytes := map (fun i => byte_of_N (N.of_nat i)) (seq 201 16).

Definition pair_of (k : bytes) : ECC := mkECC k k k.

Definition world0 : world :=
  mkWorld [] [pair_of key_short; pair_of key_b] [iv0].

(** The envelope of the three bytes "abc" for the public key of
    [key_a], under the shared MAC data [b'\x07'], as [ecies_encrypt]
    makes it in [world0]. *)
Definition envelope0 : bytes :=
  match fst (ECCx.ecies_encrypt providers [x61; x62; x63] (key_a ++ key_a)
               [x07] world0) with
  | Ok env => env
  | _ => []
  end.

End Toy.

(* ------------------------------------------------------------------ *)
(** ** Vocabulary of the statements *)

(** [start; start + 1; ...], [n] numbers. *)
Fixpoint Zrange (start : Z) (n : nat) : list Z :=
  match n with
  | O => []
  | S n' => start :: Zrange (start + 1) n'
  end.

(** What one turn of the KDF loop hashes: the counter, big-endian on
    four bytes, then the key material (and the empty [s1]). *)
Definition kdf_input (key_material : bytes) (counter : Z) : bytes :=
  be32 counter ++ key_material.

(** The turns the loop of [eciesKDF] takes for [key_len]. *)
Definition kdf_turns (key_len : Z) : Z := (key_len + 7) / 64 + 1.

(** The iteration count in the words of the specification:
    ceil((out_len*8 + 56) / 512). *)
Definition ceil_div (a b : Z) : Z := - ((- a) / b).
Definition spec_kdf_iterations (out_len : Z) : Z :=
  ceil_div (out_len * 8 + 56) 512.

(** The keys of one message, from the shared secret [z]: the cipher key
    and the MAC key, as [ecies_encrypt] and [ecies_decrypt] derive them
    from [eciesKDF(z, 32)]. *)
Definition key_enc_of (P : Providers) (z : bytes) : bytes :=
  upto 16 (upto 32 (sha256 P (kdf_input z 1))).
Definition key_mac_of (P : Providers) (z : bytes) : bytes :=
  sha256 P (from 16 (upto 32 (sha256 P (kdf_input z 1)))).

(** The SHA-256 inputs and the HMAC arguments found in a call log. *)
Definition sha256_calls (l : list prim_call) : list bytes :=
  flat_map (fun c => match c with call_sha256 x => [x] | _ => [] end) l.

Definition hmac_calls (l : list prim_call) : list (bytes * bytes) :=
  flat_map (fun c => match c with
                     | call_hmac_sha256 k m => [(k, m)]
                     | _ => []
                     end) l.

(** A computation only ever adds to the call log. *)
Definition log_grows {A} (c : M A) : Prop :=
  forall w, exists l, calls (snd (c w)) = calls w ++ l.

(** What the module needs of the libraries (section 6 of the design:
    digest and tag sizes, a length-preserving cipher whose decryption
    undoes its encryption, a 16-byte block, a comparison that is
    equality, a key agreement on which both parties agree, signatures
    that recover to the signer's key).  A key pair is one that
    [raw_check_key] accepts. *)
Record ProviderLaws (P : Providers) : Prop := {
  sha256_len : forall x, len (sha256 P x) = 32;
  hmac_len : forall k m, len (hmac_sha256 P k m) = 32;
  equals_refl : forall a, equals P a a = true;
  blocksize_16 : get_blocksize P = 16;
  cipher_inverse :
    forall key iv data,
      len key = 16 -> len iv = 16 ->
      exists c,
        ciphering P key iv 1 data = Ok c /\ len c = len data
        /\ ciphering P key iv 0 c = Ok data;
  ecdh_agree :
    forall a ax ay b bx by_,
      raw_check_key P a ax ay = Ok 0 ->
      raw_check_key P b bx by_ = Ok 0 ->
      exists z,
        len z = 32
        /\ raw_get_ecdh_key P a bx by_ = Ok z
        /\ raw_get_ecdh_key P b ax ay = Ok z;
  sign_recover :
    forall a ax ay digest,
      raw_check_key P a ax ay = Ok 0 ->
      private_key P a = Ok tt
      /\ exists s,
           sign_recoverable P a digest = Ok s /\ len s = 65
           /\ recover P s digest = Ok ([x04] ++ ax ++ ay)
}.

(** A generated key pair that [ECCx.__init__] keeps: a 32-byte private
    key in a format [bitcoin] knows, 64 bytes of public key, and the
    library's consistency check passes on the two halves. *)
Definition good_pair (P : Providers) (k : ECC) : Prop :=
  len (privkey k) = 32
  /\ get_privkey_format P (privkey k) = Ok tt
  /\ len (pubkey_x k ++ pubkey_y k) = 64
  /\ raw_check_key P (privkey k) (upto 32 (pubkey_x k ++ pubkey_y k))
       (from 32 (pubkey_x k ++ pubkey_y k)) = Ok 0.

(** An object that passed [has_valid_keys], as every object does that
    [ECCx.__init__] returns. *)
Definition valid_object (P : Providers) (self : ECCx.t) : Prop :=
  len (ECCx.raw_pubkey self) = 64
  /\ get_privkey_format P (privkey self) = Ok tt
  /\ raw_check_key P (privkey self) (upto 32 (ECCx.raw_pubkey self))
       (from 32 (ECCx.raw_pubkey self)) = Ok 0.

(** The bytes [sha3] hashes for a message. *)
Definition as_bytes (m : pyobj) : result bytes :=
  match m with
  | PyStr s => str_encode s
  | PyBytes b => Ok b
  end.

(** A generated pair that makes [ECCx.__init__] try again: its private
    key is not empty and not 32 bytes long. *)
Definition short_key (k : ECC) : Prop :=
  privkey k <> [] /\ len (privkey k) <> 32.

(** The random source is about to hand out, after some pairs that are
    tried again, a good pair, and a 16-byte IV. *)
Definition fresh_randomness (P : Providers) (w : world) : Prop :=
  exists skipped k ks iv rest,
    keygen w = skipped ++ k :: ks /\ Forall short_key skipped
    /\ good_pair P k /\ ivs w = iv :: rest /\ len iv = 16.

(** ** Facts about slices *)
Section SliceFacts.
Context {A : Type}.
Implicit Types l a b c : list A.

Lemma len_app a b : len (a ++ b) = len a + len b.
Proof. unfold len. rewrite length_app. lia. Qed.

Lemma len_nonneg l : 0 <= len l.
Proof. unfold len. lia. Qed.

Lemma len_nil : len (@nil A) = 0.
Proof. reflexivity. Qed.

Lemma len_cons x l : len (x :: l) = 1 + len l.
Proof. unfold len. simpl length. lia. Qed.

Lemma firstn_skipn_middle a b c :
  firstn (length b) (skipn (length a) (a ++ b ++ c)) = b.
Proof.
  rewrite skipn_app, skipn_all, Nat.sub_diag. simpl.
  rewrite firstn_app, firstn_all, Nat.sub_diag. simpl. apply app_nil_r.
Qed.

(** The slice that cuts [b] out of [a ++ b ++ c]. *)
Lemma slice_middle lo hi a b c :
  match lo with
  | Some i => slice_index (len (a ++ b ++ c)) i
  | None => 0
  end = len a ->
  match hi with
  | Some j => slice_index (len (a ++ b ++ c)) j
  | None => len (a ++ b ++ c)
  end = len a + len b ->
  slice lo hi (a ++ b ++ c) = b.
Proof.
  intros Hlo Hhi. unfold slice. rewrite Hlo, Hhi.
  replace (Z.to_nat (len a + len b - len a)) with (length b) by (unfold len; lia).
  replace (Z.to_nat (len a)) with (length a) by (unfold len; lia).
  apply firstn_skipn_middle.
Qed.

Lemma upto_app n a b : len a = n -> upto n (a ++ b) = a.
Proof.
  intros H. unfold upto.
  apply (slice_middle None (Some n) [] a b); simpl app;
    rewrite ?len_app, ?len_nil.
  - reflexivity.
  - unfold slice_index. pose proof (len_nonneg a). pose proof (len_nonneg b).
    destruct (n <? 0) eqn:E; lia.
Qed.

Lemma from_app n a b : len a = n -> from n (a ++ b) = b.
Proof.
  intros H. unfold from.
  pose proof (slice_middle (Some n) None a b []) as S.
  rewrite app_nil_r in S. apply S; rewrite ?len_app.
  - unfold slice_index. pose proof (len_nonneg a). pose proof (len_nonneg b).
    destruct (n <? 0) eqn:E; lia.
  - reflexivity.
Qed.

Lemma from_neg_app n a b : len b = n -> 0 < n -> from (- n) (a ++ b) = b.
Proof.
  intros H Hn. unfold from.
  pose proof (slice_middle (Some (- n)) None a b []) as S.
  rewrite app_nil_r in S. apply S; rewrite ?len_app.
  - unfold slice_index. pose proof (len_nonneg a).
    destruct (- n <? 0) eqn:E; lia.
  - reflexivity.
Qed.

Lemma between_app lo hi a b c :
  len a = lo -> len b = hi - lo -> between lo hi (a ++ b ++ c) = b.
Proof.
  intros Ha Hb. unfold between.
  pose proof (len_nonneg a). pose proof (len_nonneg b). pose proof (len_nonneg c).
  apply slice_middle; rewrite ?len_app; unfold slice_index.
  - destruct (lo <? 0) eqn:E; lia.
  - destruct (hi <? 0) eqn:E; lia.
Qed.

Lemma between_neg_app lo n a b c :
  len a = lo -> len c = n -> 0 < n -> between lo (- n) (a ++ b ++ c) = b.
Proof.
  intros Ha Hc Hn. unfold between.
  pose proof (len_nonneg a). pose proof (len_nonneg b).
  apply slice_middle; rewrite ?len_app; unfold slice_index.
  - destruct (lo <? 0) eqn:E; lia.
  - destruct (- n <? 0) eqn:E; lia.
Qed.

Lemma len_upto n l : 0 <= n -> len (upto n l) = Z.min n (len l).
Proof.
  intros Hn. unfold upto, slice, slice_index.
  destruct (n <? 0) eqn:E; [lia|]. simpl skipn.
  unfold len. rewrite length_firstn. lia.
Qed.

Lemma upto_from n l : 0 <= n -> upto n l ++ from n l = l.
Proof.
  intros Hn. unfold upto, from, slice, slice_index.
  destruct (n <? 0) eqn:E; [lia|]. simpl skipn.
  rewrite Z.sub_0_r.
  assert (Hmin: Z.to_nat (Z.min n (len l)) = Nat.min (Z.to_nat n) (length l))
    by (unfold len; lia).
  rewrite Hmin.
  rewrite (firstn_all2 (n := Z.to_nat (len l - Z.min n (len l)))).
  2:{ rewrite length_skipn. unfold len. lia. }
  destruct (Nat.le_ge_cases (Z.to_nat n) (length l)) as [Hle|Hge].
  - rewrite Nat.min_l by assumption. apply firstn_skipn.
  - rewrite Nat.min_r by assumption. apply firstn_skipn.
Qed.

Lemma len_from n l : 0 <= n -> len (from n l) = Z.max 0 (len l - n).
Proof.
  intros Hn. unfold from, slice, slice_index.
  destruct (n <? 0) eqn:E; [lia|].
  unfold len. rewrite length_firstn, length_skipn. lia.
Qed.

End SliceFacts.

(** ** Facts about the monad *)

Lemma with_calls_nil w : with_calls [] w = w.
Proof. destruct w. unfold with_calls. simpl. now rewrite app_nil_r. Qed.

Lemma with_calls_app a b w :
  with_calls b (with_calls a w) = with_calls (a ++ b) w.
Proof. unfold with_calls. simpl. now rewrite app_assoc. Qed.

Section MonadFacts.
Context {A B : Type}.

Lemma bind_Ok (c : M A) (f : A -> M B) w a w1 :
  c w = (Ok a, w1) -> bind c f w = f a w1.
Proof. intros H. unfold bind. now rewrite H. Qed.

Lemma bind_Raise (c : M A) (f : A -> M B) w e w1 :
  c w = (Raise e, w1) -> bind c f w = (Raise e, w1).
Proof. intros H. unfold bind. now rewrite H. Qed.

Lemma bind_Ok_inv (c : M A) (f : A -> M B) w b w' :
  bind c f w = (Ok b, w') ->
  exists a w1, c w = (Ok a, w1) /\ f a w1 = (Ok b, w').
Proof.
  unfold bind. destruct (c w) as [[a| e |] w1]; intros H; try discriminate.
  now exists a, w1.
Qed.

Lemma lift_Ok_inv (r : result A) w a w' :
  lift r w = (Ok a, w') -> r = Ok a /\ w' = w.
Proof. unfold lift. intros H. now inversion H. Qed.

End MonadFacts.

Lemma assert_Ok_inv cond w u w' :
  assert cond w = (Ok u, w') -> cond = true /\ w' = w.
Proof.
  destruct cond; unfold assert, ret, raise; intros H; inversion H; auto.
Qed.

Lemma log_Ok_inv c w u w' :
  log c w = (Ok u, w') -> w' = with_calls [c] w.
Proof. unfold log. intros H. now inversion H. Qed.

(** *** The call log only grows *)

Section LogGrows.
Context {A B : Type}.

Lemma log_grows_ret (a : A) : log_grows (ret a).
Proof. intros w. exists []. simpl. now rewrite app_nil_r. Qed.

Lemma log_grows_raise k args : log_grows (@raise A k args).
Proof. intros w. exists []. simpl. now rewrite app_nil_r. Qed.

Lemma log_grows_lift (r : result A) : log_grows (lift r).
Proof. intros w. exists []. simpl. now rewrite app_nil_r. Qed.

Lemma log_grows_out_of_fuel : log_grows (@out_of_fuel A).
Proof. intros w. exists []. simpl. now rewrite app_nil_r. Qed.

Lemma log_grows_bind (c : M A) (f : A -> M B) :
  log_grows c -> (forall a, log_grows (f a)) -> log_grows (bind c f).
Proof.
  intros Hc Hf w. unfold bind. destruct (Hc w) as [l Hl].
  destruct (c w) as [[a| e |] w1]; simpl in *.
  - destruct (Hf a w1) as [l' Hl']. exists (l ++ l').
    now rewrite Hl', Hl, app_assoc.
  - now exists l.
  - now exists l.
Qed.

Lemma log_grows_try_except_if catches (body : M A) handler :
  log_grows body -> (forall e, log_grows (handler e)) ->
  log_grows (try_except_if catches body handler).
Proof.
  intros Hc Hh w. unfold try_except_if. destruct (Hc w) as [l Hl].
  destruct (body w) as [[a| e |] w1]; simpl in *.
  - now exists l.
  - destruct (catches e); simpl.
    + destruct (Hh e w1) as [l' Hl']. exists (l ++ l').
      now rewrite Hl', Hl, app_assoc.
    + now exists l.
  - now exists l.
Qed.

Lemma log_grows_try_except (body : M A) handler :
  log_grows body -> (forall e, log_grows (handler e)) ->
  log_grows (try_except body handler).
Proof.
  intros Hc Hh w. unfold try_except. destruct (Hc w) as [l Hl].
  destruct (body w) as [[a| e |] w1]; simpl in *.
  - now exists l.
  - destruct (Hh e w1) as [l' Hl']. exists (l ++ l').
    now rewrite Hl', Hl, app_assoc.
  - now exists l.
Qed.

End LogGrows.

Lemma log_grows_log c : log_grows (log c).
Proof. intros w. now exists [c]. Qed.

Lemma log_grows_assert cond : log_grows (assert cond).
Proof.
  destruct cond; [apply log_grows_ret | apply log_grows_raise].
Qed.

Create HintDb log_grows.
#[export] Hint Resolve log_grows_ret log_grows_raise log_grows_lift
  log_grows_out_of_fuel log_grows_log log_grows_assert : log_grows.

Ltac log_grows_step :=
  match goal with
  | |- log_grows (bind _ _) => apply log_grows_bind; [| intro]
  | |- log_grows (try_except _ _) => apply log_grows_try_except; [| intro]
  | |- log_grows (try_except_if _ _ _) =>
      apply log_grows_try_except_if; [| intro]
  | |- log_grows (if ?b then _ else _) => destruct b
  | |- log_grows (match ?x with _ => _ end) => destruct x
  | |- log_grows _ => solve [auto with log_grows]
  end.

Section ProgramLog.
Variable P : Providers.

Lemma log_grows_gen_IV : log_grows pyelliptic_gen_IV.
Proof.
  intros w. unfold pyelliptic_gen_IV, bind, log. simpl.
  destruct (ivs w); simpl; now exists [call_gen_IV].
Qed.

Lemma log_grows_ECC_init x y priv : log_grows (ECC_init P x y priv).
Proof.
  intros w. unfold ECC_init, bind, log, lift. simpl.
  destruct x, y, priv; simpl; try (destruct (keygen w); simpl);
    now eexists [_].
Qed.

Lemma log_grows_sha256 x : log_grows (hashlib_sha256 P x).
Proof. unfold hashlib_sha256. repeat log_grows_step. Qed.

Lemma log_grows_sha3_256 x : log_grows (_sha3_256 P x).
Proof. unfold _sha3_256. repeat log_grows_step. Qed.

Lemma log_grows_hmac k m : log_grows (pyelliptic_hmac_sha256 P k m).
Proof. unfold pyelliptic_hmac_sha256. repeat log_grows_step. Qed.

Lemma log_grows_equals a b : log_grows (pyelliptic_equals P a b).
Proof. unfold pyelliptic_equals. repeat log_grows_step. Qed.

Lemma log_grows_get_blocksize : log_grows (pyelliptic_get_blocksize P).
Proof. unfold pyelliptic_get_blocksize. repeat log_grows_step. Qed.

Lemma log_grows_ciphering k iv d x :
  log_grows (pyelliptic_ciphering P k iv d x).
Proof. unfold pyelliptic_ciphering. repeat log_grows_step. Qed.

Lemma log_grows_ecdh self x y : log_grows (ecc_raw_get_ecdh_key P self x y).
Proof. unfold ecc_raw_get_ecdh_key. repeat log_grows_step. Qed.

Lemma log_grows_check_key priv x y : log_grows (ecc_raw_check_key P priv x y).
Proof. unfold ecc_raw_check_key. repeat log_grows_step. Qed.

Lemma log_grows_get_privkey_format k :
  log_grows (bitcoin_get_privkey_format P k).
Proof. unfold bitcoin_get_privkey_format. repeat log_grows_step. Qed.

#[local] Hint Resolve log_grows_gen_IV log_grows_ECC_init log_grows_sha256
  log_grows_sha3_256 log_grows_hmac log_grows_equals log_grows_get_blocksize
  log_grows_ciphering log_grows_ecdh log_grows_check_key
  log_grows_get_privkey_format : log_grows.

Lemma log_grows_eciesKDF_loop fuel reps km s1 :
  forall counter key,
    log_grows (eciesKDF_loop P fuel reps km s1 counter key).
Proof.
  induction fuel as [|fuel IH]; intros counter key; simpl;
    repeat log_grows_step.
Qed.

Lemma log_grows_eciesKDF km key_len : log_grows (eciesKDF P km key_len).
Proof.
  unfold eciesKDF. repeat log_grows_step.
  apply log_grows_eciesKDF_loop.
Qed.

End ProgramLog.

#[export] Hint Resolve log_grows_gen_IV log_grows_ECC_init log_grows_sha256
  log_grows_sha3_256 log_grows_hmac log_grows_equals log_grows_get_blocksize
  log_grows_ciphering log_grows_ecdh log_grows_check_key
  log_grows_get_privkey_format log_grows_eciesKDF : log_grows.

(* ------------------------------------------------------------------ *)
(** ** Public-key validation *)

(** C9: [verify_pubkey] raises [InvalidKeys] exactly when the key is not
    64 bytes long, and accepts every 64-byte string as it is: nothing
    but the length is looked at. *)
Theorem verify_pubkey_length_only (key : bytes) :
  (verify_pubkey key = Ok tt <-> len key = 64)
  /\ ((exists args, verify_pubkey key = Raise (Exn InvalidKeys args))
      <-> len key <> 64)
  /\ verify_pubkey key
     = if len key =? 64 then Ok tt
       else Raise (Exn InvalidKeys ["Invalid pubkey length"%string]).
Proof.
  unfold verify_pubkey.
  destruct (Z.eqb_spec (len key) 64) as [E|E]; simpl; repeat split;
    try tauto; try discriminate; try congruence.
  - intros [args H]. discriminate.
  - intros _. eexists. reflexivity.
Qed.

(* ------------------------------------------------------------------ *)
(** ** The digest helper *)

(** C10: [sha3] takes text and bytes alike; on a [str] it hashes the
    UTF-8 encoding, so [sha3(s)] is [sha3(s.encode())], also where the
    encoding is refused. *)
Theorem sha3_str_is_sha3_of_encoding (P : Providers) (s : pystr) (w : world) :
  sha3 P (PyStr s) w
  = (b <- lift (str_encode s) ;; sha3 P (PyBytes b)) w.
Proof.
  unfold sha3, bind, lift, ret. destruct (str_encode s); reflexivity.
Qed.

(* ------------------------------------------------------------------ *)
(** ** Decryption: what is checked before the first primitive *)

Lemma bytes_eqb_eq a b : bytes_eqb a b = true <-> a = b.
Proof.
  unfold bytes_eqb. destruct (list_eq_dec byte_eq_dec a b); split;
    congruence.
Qed.

Lemma bytes_eqb_refl a : bytes_eqb a a = true.
Proof. now apply bytes_eqb_eq. Qed.

(** A logged library call followed by anything that only adds to the
    log: the call comes first in what was added. *)
Lemma first_logged_call {A B} (c : prim_call) (r : result A)
    (k : A -> M B) w :
  (forall a, log_grows (k a)) ->
  exists l,
    calls (snd (bind (bind (log c) (fun _ => lift r)) k w))
    = calls w ++ c :: l.
Proof.
  intros G. unfold bind, log, lift.
  destruct r as [a| e |].
  - destruct (G a (with_calls [c] w)) as [l Hl]. exists l.
    rewrite Hl. simpl. now rewrite <- app_assoc.
  - now exists [].
  - now exists [].
Qed.

(** Past the header test, everything [ecies_decrypt] does starts with
    the key agreement. *)
Lemma ecies_decrypt_after_header P self data m w :
  upto 1 data = [x04] ->
  exists l,
    calls (snd (ECCx.ecies_decrypt P self data m w))
    = calls w
      ++ call_ecdh (privkey self) (upto 32 (between 1 65 data))
           (from 32 (between 1 65 data)) :: l.
Proof.
  intros Hd. unfold ECCx.ecies_decrypt.
  rewrite Hd, bytes_eqb_refl. simpl negb. cbv iota.
  erewrite bind_Ok by reflexivity.
  cbv zeta. change (1 + 64) with 65.
  unfold ecc_raw_get_ecdh_key.
  apply first_logged_call.
  intro z. repeat log_grows_step.
Qed.

(** C2, as the code has it: the only test made before the first
    primitive is on the first byte.  An input that does not start with
    0x04 (the empty input included) fails with
    [DecryptionError("wrong ecies header")] and leaves the world as it
    was, so no primitive was called.  There is no test on the length:
    an input that starts with 0x04, however short, goes on to the key
    agreement, which is the next call logged. *)
Theorem ecies_decrypt_header_only P (self : ECCx.t) (data m : bytes) (w : world) :
  (upto 1 data <> [x04] ->
   ECCx.ecies_decrypt P self data m w
   = (Raise (Exn DecryptionError ["wrong ecies header"%string]), w))
  /\ (upto 1 data = [x04] ->
      exists l,
        calls (snd (ECCx.ecies_decrypt P self data m w))
        = calls w
          ++ call_ecdh (privkey self) (upto 32 (between 1 65 data))
               (from 32 (between 1 65 data)) :: l).
Proof.
  split.
  - intros Hd. unfold ECCx.ecies_decrypt.
    destruct (bytes_eqb (upto 1 data) [x04]) eqn:E.
    + apply bytes_eqb_eq in E. contradiction.
    + reflexivity.
  - apply ecies_decrypt_after_header.
Qed.

Lemma ecies_decrypt_header_only_witness :
  ECCx.ecies_decrypt Toy.providers (Toy.pair_of Toy.key_a) [x05; x04] []
    Toy.world0
  = (Raise (Exn DecryptionError ["wrong ecies header"%string]), Toy.world0)
  /\ exists l,
       calls (snd (ECCx.ecies_decrypt Toy.providers (Toy.pair_of Toy.key_a)
                     [x04; x05] [] Toy.world0))
       = calls Toy.world0
         ++ call_ecdh Toy.key_a (upto 32 (between 1 65 [x04; x05]))
              (from 32 (between 1 65 [x04; x05])) :: l.
Proof.
  split.
  - apply (proj1 (ecies_decrypt_header_only Toy.providers
                    (Toy.pair_of Toy.key_a) [x05; x04] [] Toy.world0)).
    vm_compute. discriminate.
  - apply (proj2 (ecies_decrypt_header_only Toy.providers
                    (Toy.pair_of Toy.key_a) [x04; x05] [] Toy.world0)).
    vm_compute. reflexivity.
Defined.

(** C2 as stated fails: the one-byte input [b'\x04'] is shorter than
    113 bytes, yet decryption calls the key agreement (on two empty
    coordinates) and it is the library that raises, not a check of the
    module. *)
Lemma ecies_decrypt_short_input_reaches_ecdh :
  len [x04] < 113
  /\ ECCx.ecies_decrypt Toy.providers (Toy.pair_of Toy.key_a) [x04] []
       (mkWorld [] [] [])
     = (Raise (Exn LibraryError []),
        mkWorld [call_ecdh Toy.key_a [] []] [] []).
Proof. split; vm_compute; reflexivity. Qed.

(* ------------------------------------------------------------------ *)
(** ** The concatenation KDF *)

Section KDF.
Variable P : Providers.

Lemma Zrange_length start n : length (Zrange start n) = n.
Proof. revert start. induction n; intros; simpl; auto. Qed.

Lemma Zrange_bounds start n i :
  In i (Zrange start n) -> start <= i < start + Z.of_nat n.
Proof.
  revert start. induction n as [|n IH]; intros start; simpl; [tauto|].
  intros [<- | H]; [lia|]. apply IH in H. lia.
Qed.

(** [counter <= reps] for the quotient [num / 512]. *)
Lemma counter_le_reps counter num :
  Qle_bool (inject_Z counter) (num # 512) = (counter <=? num / 512).
Proof.
  unfold Qle_bool, inject_Z. simpl Qnum. simpl Qden.
  rewrite Z.mul_1_r.
  destruct (Z.leb_spec (counter * 512) num) as [H|H];
    destruct (Z.leb_spec counter (num / 512)) as [G|G]; try reflexivity;
    exfalso.
  - assert (counter <= num / 512) by (apply Z.div_le_lower_bound; lia). lia.
  - assert (num / 512 < counter) by (apply Z.div_lt_upper_bound; lia). lia.
Qed.

(** The loop, run from [counter] with [n] turns to go: it hashes the
    inputs of the counters [counter + 1 .. counter + n] in order and
    returns the digests appended to [key]. *)
Lemma eciesKDF_loop_run km num :
  forall n fuel counter key w,
    0 <= counter ->
    counter + Z.of_nat n = Z.max 0 (num / 512 + 1) ->
    counter + Z.of_nat n <= 4294967295 ->
    (n <= fuel)%nat ->
    eciesKDF_loop P fuel (num # 512) km [] counter key w
    = (Ok (key ++ concat (map (fun i => sha256 P (kdf_input km i))
                            (Zrange (counter + 1) n))),
       with_calls (map (fun i => call_sha256 (kdf_input km i))
                     (Zrange (counter + 1) n)) w).
Proof.
  induction n as [|n IH]; intros fuel counter key w H0 Hn Hmax Hfuel.
  - assert (E : Qle_bool (inject_Z counter) (num # 512) = false).
    { rewrite counter_le_reps. apply Z.leb_gt. lia. }
    destruct fuel; simpl; rewrite E; unfold ret;
      now rewrite app_nil_r, with_calls_nil.
  - assert (E : Qle_bool (inject_Z counter) (num # 512) = true).
    { rewrite counter_le_reps. apply Z.leb_le. lia. }
    destruct fuel as [|fuel]; [lia|]. simpl eciesKDF_loop. rewrite E.
    unfold struct_pack_I.
    replace ((0 <=? counter + 1) && (counter + 1 <=? 4294967295)) with true
      by (symmetry; apply andb_true_iff; split; apply Z.leb_le; lia).
    unfold bind at 1. unfold lift at 1.
    unfold hashlib_sha256. unfold bind at 1. unfold bind at 1.
    unfold log at 1. unfold ret at 1.
    rewrite IH by lia.
    rewrite app_nil_r. simpl Zrange. simpl map. simpl concat.
    unfold kdf_input at 2 4.
    rewrite with_calls_app, <- app_assoc. reflexivity.
Qed.

(** The fuel [eciesKDF] gives its loop is never used up: the function
    returns or raises, for every argument. *)
Lemma eciesKDF_loop_fuel km num :
  forall fuel counter key w,
    Z.max 0 (num / 512 + 1 - counter) <= Z.of_nat fuel ->
    fst (eciesKDF_loop P fuel (num # 512) km [] counter key w) <> OutOfFuel.
Proof.
  induction fuel as [|fuel IH]; intros counter key w Hfuel;
    simpl eciesKDF_loop; rewrite counter_le_reps;
    destruct (Z.leb_spec counter (num / 512)) as [Hle|Hgt];
    try (simpl; discriminate); [lia|].
  unfold bind at 1, lift at 1.
  destruct (struct_pack_I (counter + 1)) as [packed| e |] eqn:Ep;
    try (simpl; discriminate).
  - unfold hashlib_sha256, bind at 1, bind at 1, log at 1, ret at 1.
    apply IH. lia.
  - unfold struct_pack_I in Ep.
    destruct ((0 <=? counter + 1) && (counter + 1 <=? 4294967295));
      discriminate.
Qed.

Lemma eciesKDF_total km key_len w :
  fst (eciesKDF P km key_len w) <> OutOfFuel.
Proof.
  unfold eciesKDF, true_div.
  destruct (double_limit * Z.pos (64 * 8) <=? Z.abs ((key_len + 7) * 8));
    [simpl; discriminate|].
  unfold bind at 1, lift at 1.
  change (Z.pos (64 * 8)) with 512%Z.
  change (64 * 8)%positive with 512%positive.
  pose proof (@eciesKDF_loop_fuel km ((key_len + 7) * 8)
                (Z.to_nat ((key_len + 7) * 8 / 512 + 1)) 0 [] w
                ltac:(lia)) as H.
  unfold bind.
  destruct (eciesKDF_loop P _ _ km [] 0 [] w) as [[key| e |] w1];
    simpl in *; congruence.
Qed.

(** [eciesKDF] in closed form, for a length whose turns the four-byte
    counter can count. *)
Lemma eciesKDF_run km key_len w :
  0 <= key_len -> kdf_turns key_len <= 4294967295 ->
  let inputs := map (kdf_input km)
                  (Zrange 1 (Z.to_nat (kdf_turns key_len))) in
  eciesKDF P km key_len w
  = (Ok (upto key_len (concat (map (sha256 P) inputs))),
     with_calls (map call_sha256 inputs) w).
Proof.
  intros H0 Hmax inputs. unfold eciesKDF, kdf_turns in *.
  assert (Hq : (key_len + 7) * 8 / 512 = (key_len + 7) / 64).
  { replace 512 with (8 * 64) by reflexivity.
    rewrite Z.mul_comm. rewrite Z.div_mul_cancel_l; lia. }
  assert (Hpos : 0 <= (key_len + 7) / 64) by (apply Z.div_pos; lia).
  unfold true_div.
  destruct (Z.leb_spec (double_limit * Z.pos (64 * 8)) (Z.abs ((key_len + 7) * 8)))
    as [Hbig|_].
  { exfalso.
    pose proof (Z.mul_succ_div_gt (key_len + 7) 64 ltac:(lia)) as Hlt.
    assert (Hd : 2 ^ 64 <= double_limit)
      by (apply Z.leb_le; vm_compute; reflexivity).
    change (2 ^ 64) with 18446744073709551616 in Hd.
    rewrite Z.abs_eq in Hbig by lia.
    change (Z.pos (64 * 8)) with 512 in Hbig. nia. }
  unfold bind at 1. unfold lift at 1.
  change (Z.pos (64 * 8)) with 512%Z. change (64 * 8)%positive with 512%positive.
  unfold bind at 1.
  rewrite (@eciesKDF_loop_run km ((key_len + 7) * 8)
             (Z.to_nat ((key_len + 7) / 64 + 1))); try (rewrite ?Hq; lia).
  unfold ret. subst inputs. rewrite !map_map. reflexivity.
Qed.

End KDF.

Lemma len_concat_const {A} (ls : list (list A)) n :
  (forall l, In l ls -> len l = n) -> len (concat ls) = n * len ls.
Proof.
  induction ls as [|l ls IH]; intros H; simpl concat.
  - unfold len. simpl. lia.
  - rewrite len_app, len_cons, IH by (intros; apply H; simpl; auto).
    rewrite (H l) by (simpl; auto). lia.
Qed.

Lemma len_map {A B} (f : A -> B) l : len (map f l) = len l.
Proof. unfold len. now rewrite length_map. Qed.

Lemma kdf_turns_vs_spec key_len :
  kdf_turns key_len
  = spec_kdf_iterations key_len + (if (key_len + 7) mod 64 =? 0 then 1 else 0).
Proof.
  unfold kdf_turns, spec_kdf_iterations, ceil_div.
  pose proof (Z.div_mod (key_len + 7) 64 ltac:(lia)) as Hdm.
  pose proof (Z.mod_pos_bound (key_len + 7) 64 ltac:(lia)) as Hr.
  set (q := (key_len + 7) / 64) in *. set (r := (key_len + 7) mod 64) in *.
  destruct (Z.eqb_spec r 0) as [E|E].
  - rewrite <- (Z.div_unique (- (key_len * 8 + 56)) 512 (- q) 0); lia.
  - rewrite <- (Z.div_unique (- (key_len * 8 + 56)) 512 (- q - 1)
                  (512 - 8 * r)); lia.
Qed.

Lemma sha256_calls_app a b :
  sha256_calls (a ++ b) = sha256_calls a ++ sha256_calls b.
Proof. unfold sha256_calls. apply flat_map_app. Qed.

Lemma sha256_calls_map xs : sha256_calls (map call_sha256 xs) = xs.
Proof. induction xs; simpl; congruence. Qed.

(** C5, as the code has it: the loop starts at counter 0 and runs while
    [counter <= reps], so it takes floor((key_len + 7) / 64) + 1 turns.
    Turn i (from 1) hashes the big-endian counter i followed by the key
    material, and these are all the SHA-256 calls made.  The count is
    the ceiling of the specification except where key_len + 7 is a
    multiple of 64, where the loop takes one turn more. *)
Theorem eciesKDF_sha256_calls P (key_material : bytes) (key_len : Z) (w : world) :
  0 <= key_len -> kdf_turns key_len <= 4294967295 ->
  exists key w',
    eciesKDF P key_material key_len w = (Ok key, w')
    /\ sha256_calls (calls w')
       = sha256_calls (calls w)
         ++ map (kdf_input key_material)
              (Zrange 1 (Z.to_nat (kdf_turns key_len)))
    /\ len (sha256_calls (calls w'))
       = len (sha256_calls (calls w)) + kdf_turns key_len
    /\ kdf_turns key_len
       = spec_kdf_iterations key_len
         + (if (key_len + 7) mod 64 =? 0 then 1 else 0).
Proof.
  intros H0 Hmax. do 2 eexists. split; [now apply eciesKDF_run|].
  assert (Hpos : 0 < kdf_turns key_len).
  { unfold kdf_turns. assert (0 <= (key_len + 7) / 64) by (apply Z.div_pos; lia).
    lia. }
  simpl calls. rewrite sha256_calls_app, sha256_calls_map.
  split; [reflexivity|]. split; [|apply kdf_turns_vs_spec].
  rewrite len_app, len_map. unfold len. rewrite Zrange_length. lia.
Qed.

Lemma eciesKDF_sha256_calls_witness :
  (0 <= 32 /\ kdf_turns 32 <= 4294967295)
  /\ exists key w',
       eciesKDF Toy.providers Toy.key_a 32 Toy.world0 = (Ok key, w')
       /\ sha256_calls (calls w')
          = sha256_calls (calls Toy.world0)
            ++ map (kdf_input Toy.key_a) (Zrange 1 (Z.to_nat (kdf_turns 32)))
       /\ len (sha256_calls (calls w'))
          = len (sha256_calls (calls Toy.world0)) + kdf_turns 32
       /\ kdf_turns 32
          = spec_kdf_iterations 32 + (if (32 + 7) mod 64 =? 0 then 1 else 0).
Proof.
  assert (H0 : 0 <= 32) by lia.
  assert (H1 : kdf_turns 32 <= 4294967295) by (vm_compute; discriminate).
  split; [now split|].
  exact (eciesKDF_sha256_calls Toy.providers Toy.key_a Toy.world0 H0 H1).
Defined.

(** C5 as stated fails at out_len = 57: 57 * 8 + 56 = 512, whose
    quotient by 512 has ceiling 1, while the loop hashes for the
    counters 1 and 2. *)
Lemma eciesKDF_57_hashes_twice :
  spec_kdf_iterations 57 = 1
  /\ exists key w',
       eciesKDF Toy.providers [] 57 (mkWorld [] [] []) = (Ok key, w')
       /\ sha256_calls (calls w') = [be32 1; be32 2].
Proof.
  split; [reflexivity|]. do 2 eexists. split; vm_compute; reflexivity.
Qed.

(** C4, as the code has it: the turns are fixed by the block size (64),
    not by the digest size (32), so [key_len] bytes are not always
    there to be returned.  The result is the first [key_len] bytes of
    32 * turns bytes of digests; it has [key_len] bytes exactly for
    key_len <= 32 (the protocol asks for 32) and for 57 .. 64. *)
Theorem eciesKDF_length P (key_material : bytes) (key_len : Z) (w : world) :
  (forall x, len (sha256 P x) = 32) ->
  0 <= key_len -> kdf_turns key_len <= 4294967295 ->
  exists key w',
    eciesKDF P key_material key_len w = (Ok key, w')
    /\ len key = Z.min key_len (32 * kdf_turns key_len)
    /\ (len key = key_len <-> key_len <= 32 \/ 57 <= key_len <= 64).
Proof.
  intros Hsha H0 Hmax. do 2 eexists. split; [now apply eciesKDF_run|].
  assert (Hpos : 0 <= (key_len + 7) / 64) by (apply Z.div_pos; lia).
  assert (L : len (upto key_len
                (concat (map (sha256 P)
                   (map (kdf_input key_material)
                      (Zrange 1 (Z.to_nat (kdf_turns key_len)))))))
              = Z.min key_len (32 * kdf_turns key_len)).
  { rewrite len_upto by assumption.
    rewrite (@len_concat_const _ _ 32).
    - rewrite !len_map. unfold len. rewrite Zrange_length.
      unfold kdf_turns. lia.
    - intros l Hl. apply in_map_iff in Hl. destruct Hl as (x & <- & _).
      apply Hsha. }
  split; [exact L|]. rewrite L. unfold kdf_turns.
  pose proof (Z.div_mod (key_len + 7) 64 ltac:(lia)) as Hdm.
  pose proof (Z.mod_pos_bound (key_len + 7) 64 ltac:(lia)) as Hr.
  set (q := (key_len + 7) / 64) in *. set (r := (key_len + 7) mod 64) in *.
  lia.
Qed.

Lemma toy_sha256_len x : len (sha256 Toy.providers x) = 32.
Proof. simpl. unfold Toy.digest. now rewrite len_map. Qed.

Lemma eciesKDF_length_witness :
  ((forall x, len (sha256 Toy.providers x) = 32)
   /\ 0 <= 32 /\ kdf_turns 32 <= 4294967295)
  /\ exists key w',
       eciesKDF Toy.providers Toy.key_a 32 Toy.world0 = (Ok key, w')
       /\ len key = Z.min 32 (32 * kdf_turns 32)
       /\ (len key = 32 <-> 32 <= 32 \/ 57 <= 32 <= 64).
Proof.
  assert (H0 : 0 <= 32) by lia.
  assert (H1 : kdf_turns 32 <= 4294967295) by (vm_compute; discriminate).
  split; [repeat split; auto using toy_sha256_len|].
  exact (eciesKDF_length Toy.providers Toy.key_a Toy.world0
           toy_sha256_len H0 H1).
Defined.

(** C4 as stated fails at out_len = 33: (33 + 7) * 8 / 512 is below 1,
    the loop takes one turn, and the 33 bytes asked for are cut from a
    single 32-byte digest. *)
Lemma eciesKDF_33_returns_32_bytes :
  (forall x, len (sha256 Toy.providers x) = 32)
  /\ exists key w',
       eciesKDF Toy.providers [] 33 (mkWorld [] [] []) = (Ok key, w')
       /\ len key = 32 /\ len key <> 33.
Proof.
  split; [apply toy_sha256_len|].
  do 2 eexists. split; [vm_compute; reflexivity|].
  split; [reflexivity | vm_compute; discriminate].
Qed.

(* ------------------------------------------------------------------ *)
(** ** The small instance keeps the laws *)

Module ToyFacts.
Import Toy.

Lemma to_N_byte_of_N n : Byte.to_N (byte_of_N n) = (n mod 256)%N.
Proof.
  unfold byte_of_N.
  pose proof (Byte.to_of_N_option_map (n mod 256)) as H.
  assert (L : (n mod 256 <= 255)%N).
  { pose proof (N.mod_upper_bound n 256). lia. }
  apply N.leb_le in L. rewrite L in H.
  destruct (Byte.of_N (n mod 256)); simpl in H; congruence.
Qed.

Lemma byte_of_N_to_N b : byte_of_N (Byte.to_N b) = b.
Proof.
  unfold byte_of_N. pose proof (Byte.to_N_bounded b).
  rewrite N.mod_small by lia. now rewrite Byte.of_to_N.
Qed.

Lemma log2_lt_8 a : (a < 256)%N -> (N.log2 a < 8)%N.
Proof.
  intros H. destruct (N.eq_dec a 0) as [->|Hz]; [reflexivity|].
  apply N.log2_lt_pow2; [lia | exact H].
Qed.

Lemma lxor_lt_256 a b : (a < 256)%N -> (b < 256)%N -> (N.lxor a b < 256)%N.
Proof.
  intros Ha Hb. destruct (N.eq_dec (N.lxor a b) 0) as [->|Hz]; [reflexivity|].
  change 256%N with (2 ^ 8)%N. apply N.log2_lt_pow2; [lia|].
  pose proof (N.log2_lxor a b). pose proof (log2_lt_8 Ha).
  pose proof (log2_lt_8 Hb). lia.
Qed.

Lemma bxor_comm a b : bxor a b = bxor b a.
Proof. unfold bxor. now rewrite N.lxor_comm. Qed.

Lemma bxor_involutive s b : bxor s (bxor s b) = b.
Proof.
  unfold bxor. rewrite to_N_byte_of_N.
  pose proof (Byte.to_N_bounded s). pose proof (Byte.to_N_bounded b).
  rewrite N.mod_small by (apply lxor_lt_256; lia).
  rewrite <- N.lxor_assoc, N.lxor_nilpotent, N.lxor_0_l.
  apply byte_of_N_to_N.
Qed.

Lemma xor_bytes_comm a : forall b, xor_bytes a b = xor_bytes b a.
Proof.
  induction a as [|x a IH]; destruct b as [|y b]; simpl; try reflexivity.
  now rewrite bxor_comm, IH.
Qed.

Lemma len_xor_bytes a : forall b, len a = len b -> len (xor_bytes a b) = len a.
Proof.
  induction a as [|x a IH]; destruct b as [|y b]; simpl; intros H;
    try reflexivity.
  - unfold len in H. simpl in H. lia.
  - rewrite !len_cons in *. rewrite IH; lia.
Qed.

Lemma len_digest salt x : len (digest salt x) = 32.
Proof. unfold digest. now rewrite len_map. Qed.

Lemma len_pad32 h : len (pad32 h) = 32.
Proof.
  unfold pad32, len. rewrite length_firstn, length_app, repeat_length. lia.
Qed.

Lemma check_key_inv priv x y :
  check_key priv x y = Ok 0 -> len priv = 32 /\ x = priv /\ y = priv.
Proof.
  unfold check_key.
  destruct (Z.eqb_spec (len priv) 32); simpl; [|discriminate].
  destruct (bytes_eqb x priv) eqn:Ex; simpl; [|discriminate].
  destruct (bytes_eqb y priv) eqn:Ey; simpl; [|discriminate].
  apply bytes_eqb_eq in Ex, Ey. auto.
Qed.

Lemma laws : ProviderLaws providers.
Proof.
  constructor; simpl.
  - intros. apply len_digest.
  - intros. apply len_digest.
  - apply bytes_eqb_refl.
  - reflexivity.
  - intros key iv data Hk Hi. unfold cipher. rewrite Hk, Hi. simpl.
    eexists. split; [reflexivity|]. split; [apply len_map|].
    f_equal. rewrite map_map. rewrite <- (map_id data) at 2.
    apply map_ext. intros. apply bxor_involutive.
  - intros a ax ay b bx by_ Ha Hb.
    apply check_key_inv in Ha, Hb.
    destruct Ha as (La & -> & ->), Hb as (Lb & -> & ->).
    exists (xor_bytes a b). unfold ecdh.
    rewrite La, Lb, !bytes_eqb_refl. simpl.
    split; [rewrite len_xor_bytes; lia|].
    split; [reflexivity | now rewrite xor_bytes_comm].
  - intros a ax ay d Ha. apply check_key_inv in Ha.
    destruct Ha as (La & -> & ->). rewrite La. simpl.
    split; [reflexivity|]. unfold sign_with. rewrite La. simpl.
    eexists. split; [reflexivity|].
    split; [rewrite !len_app, La, len_pad32; reflexivity|].
    unfold recover_from.
    rewrite !len_app, La, len_pad32. simpl.
    rewrite (@between_app _ 32 64) by (rewrite ?len_pad32; lia).
    rewrite bytes_eqb_refl. rewrite upto_app by assumption. reflexivity.
Qed.

End ToyFacts.

(* ------------------------------------------------------------------ *)
(** ** Objects of the class *)

Section Objects.
Variable P : Providers.

Lemma raw_privkey_eq (self : ECCx.t) : ECCx.raw_privkey self = privkey self.
Proof. unfold ECCx.raw_privkey. now destruct (negb (truthy (privkey self))). Qed.

Lemma raw_pubkey_eq (self : ECCx.t) :
  ECCx.raw_pubkey self = pubkey_x self ++ pubkey_y self.
Proof.
  unfold ECCx.raw_pubkey.
  now destruct (truthy (pubkey_x self) && truthy (pubkey_y self)).
Qed.

Lemma verify_pubkey_Ok key : len key = 64 -> verify_pubkey key = Ok tt.
Proof. intros H. unfold verify_pubkey. now rewrite H. Qed.

Lemma verify_pubkey_Ok_inv key u : verify_pubkey key = Ok u -> len key = 64.
Proof.
  unfold verify_pubkey. destruct (Z.eqb_spec (len key) 64); simpl;
    [auto | discriminate].
Qed.

(** [has_valid_keys] answers [True] only on a valid object. *)
Lemma has_valid_keys_true self w w' :
  ECCx.has_valid_keys P self w = (Ok true, w') -> valid_object P self.
Proof.
  unfold ECCx.has_valid_keys, try_except, try_except_if.
  unfold bitcoin_get_privkey_format, ecc_raw_check_key, ECCx._decode_pubkey.
  rewrite raw_privkey_eq. unfold valid_object.
  unfold bind, log, lift, ret, raise.
  destruct (get_privkey_format P (privkey self)) as [[]| e |] eqn:Ef;
    try (destruct (ECCx.is_AssertionError e)); try discriminate.
  destruct (verify_pubkey (ECCx.raw_pubkey self)) as [[]| e |] eqn:Ev;
    try discriminate.
  apply verify_pubkey_Ok_inv in Ev.
  destruct (raw_check_key P (privkey self) _ _) as [z| e |] eqn:Ec;
    try discriminate.
  destruct (Z.eqb_spec z 0) as [->|]; simpl; try discriminate.
  auto.
Qed.

(** On a valid object it answers [True], after two library calls. *)
Lemma has_valid_keys_valid self w :
  valid_object P self ->
  ECCx.has_valid_keys P self w
  = (Ok true,
     with_calls [call_get_privkey_format (privkey self);
                 call_check_key (privkey self)
                   (upto 32 (ECCx.raw_pubkey self))
                   (from 32 (ECCx.raw_pubkey self))] w).
Proof.
  intros (Hl & Hf & Hc).
  unfold ECCx.has_valid_keys, try_except, try_except_if.
  unfold bitcoin_get_privkey_format, ecc_raw_check_key, ECCx._decode_pubkey.
  rewrite raw_privkey_eq.
  unfold bind, log, lift, ret, raise.
  rewrite Hf, verify_pubkey_Ok, Hc by assumption. simpl.
  now rewrite with_calls_app.
Qed.

Lemma init_loop_valid fuel x y priv :
  forall w self w',
    ECCx.init_loop P fuel x y priv w = (Ok self, w') -> valid_object P self.
Proof.
  induction fuel as [|fuel IH]; intros w self w' H; simpl in H.
  - discriminate.
  - apply bind_Ok_inv in H. destruct H as (s & w1 & _ & H).
    destruct (truthy (ECCx.raw_privkey s)
              && negb (len (ECCx.raw_privkey s) =? 32)).
    + eapply IH; eauto.
    + apply bind_Ok_inv in H. destruct H as (ok & w2 & Hv & H).
      destruct ok; simpl in H; [|discriminate].
      inversion H; subst. eapply has_valid_keys_true; eauto.
Qed.

(** Every object the constructor returns is valid. *)
Lemma init_valid raw_privkey w self w' :
  ECCx.__init__ P raw_privkey w = (Ok self, w') -> valid_object P self.
Proof.
  unfold ECCx.__init__. intros H.
  apply bind_Ok_inv in H. destruct H as ([x y] & w1 & _ & H).
  eapply init_loop_valid; eauto.
Qed.

Lemma ECC_init_generate w k ks :
  keygen w = k :: ks ->
  ECC_init P None None None w
  = (Ok k, mkWorld (calls w ++ [call_ecc_init None None None]) ks (ivs w)).
Proof.
  intros Hk. unfold ECC_init, bind, log. simpl. now rewrite Hk.
Qed.

Lemma init_loop_S fuel x y priv w :
  ECCx.init_loop P (S fuel) x y priv w
  = (self <- ECC_init P x y priv ;;
     if truthy (ECCx.raw_privkey self)
        && negb (len (ECCx.raw_privkey self) =? 32)
     then ECCx.init_loop P fuel x y priv
     else
       ok <- ECCx.has_valid_keys P self ;;
       if negb ok
       then raise CryptoError ["Invalid privkey and/or pubkey"%string]
       else ret self) w.
Proof. reflexivity. Qed.

Lemma init_None w :
  ECCx.__init__ P None w
  = ECCx.init_loop P (S (length (keygen w))) None None None w.
Proof. reflexivity. Qed.

(** [ECCx(None)] draws pairs until one has a 32-byte private key; when
    that one is good it is the object returned. *)
Lemma init_loop_generate k ks :
  good_pair P k ->
  forall skipped, Forall short_key skipped ->
  forall fuel w,
    keygen w = skipped ++ k :: ks -> (length skipped < fuel)%nat ->
    exists l,
      ECCx.init_loop P fuel None None None w
      = (Ok k, mkWorld (calls w ++ l) ks (ivs w)).
Proof.
  intros (Hp & Hf & Hl & Hc).
  assert (V : valid_object P k).
  { unfold valid_object. rewrite raw_pubkey_eq. auto. }
  induction skipped as [|s skipped IH]; intros Hs fuel w Hk Hfuel.
  - destruct fuel as [|fuel]; [inversion Hfuel|].
    rewrite init_loop_S.
    erewrite bind_Ok by (apply ECC_init_generate; exact Hk).
    rewrite raw_privkey_eq, Hp. simpl negb. rewrite andb_false_r.
    erewrite bind_Ok by (now apply has_valid_keys_valid).
    simpl. unfold ret, with_calls. simpl.
    eexists. rewrite <- app_assoc. reflexivity.
  - inversion Hs as [|? ? (Hne & Hlen) Hs']; subst.
    destruct fuel as [|fuel]; [inversion Hfuel|].
    rewrite <- app_comm_cons in Hk.
    rewrite init_loop_S.
    erewrite bind_Ok by (apply ECC_init_generate; exact Hk).
    rewrite raw_privkey_eq.
    assert (T : truthy (privkey s) = true)
      by (destruct (privkey s); [contradiction | reflexivity]).
    assert (N : negb (len (privkey s) =? 32) = true)
      by (apply negb_true_iff, Z.eqb_neq; exact Hlen).
    rewrite T, N. cbn [andb].
    destruct (IH Hs' fuel
                (mkWorld (calls w ++ [call_ecc_init None None None])
                   (skipped ++ k :: ks) (ivs w)) eq_refl)
      as [l Hrun]; [simpl in Hfuel; lia|].
    rewrite Hrun. simpl. eexists. rewrite <- app_assoc. reflexivity.
Qed.

Lemma init_generate w skipped k ks :
  keygen w = skipped ++ k :: ks -> Forall short_key skipped ->
  good_pair P k ->
  exists l,
    ECCx.__init__ P None w
    = (Ok k, mkWorld (calls w ++ l) ks (ivs w)).
Proof.
  intros Hk Hs Hg. rewrite init_None.
  apply init_loop_generate with (skipped := skipped); try assumption.
  rewrite Hk, length_app. simpl. lia.
Qed.

End Objects.

(* ------------------------------------------------------------------ *)
(** ** Signatures *)

Section Signatures.
Variable P : Providers.

Lemma sha3_run m b w :
  as_bytes m = Ok b ->
  sha3 P m w = (Ok (sha3_256 P b), with_calls [call_sha3_256 b] w).
Proof.
  intros H. unfold sha3, _sha3_256, bind, lift, ret, log.
  destruct m; simpl in H; rewrite ?H; inversion H; reflexivity.
Qed.

(** [ecdsa_verify] on a 64-byte key and a message with bytes [b]: the
    digest is taken, the key recovered, and the outcome is decided by
    the recovery and the comparison with 0x04 ‖ pubkey. *)
Lemma ecdsa_verify_run pubkey sig m b w :
  len pubkey = 64 -> as_bytes m = Ok b ->
  ecdsa_verify P pubkey sig m w
  = (match recover P sig (sha3_256 P b) with
     | Ok pk => if bytes_eqb pk ([x04] ++ pubkey) then Ok true
                else Raise (Exn InvalidSignature [])
     | Raise _ => Raise (Exn CoincurveError [])
     | OutOfFuel => OutOfFuel
     end,
     with_calls [call_sha3_256 b; call_recover sig (sha3_256 P b)] w).
Proof.
  intros Hl Hb. unfold ecdsa_verify.
  rewrite verify_pubkey_Ok by assumption.
  erewrite bind_Ok by reflexivity.
  erewrite bind_Ok by (apply sha3_run; eassumption).
  unfold try_except, coincurve_recover, bind, log, lift, raise, ret.
  rewrite with_calls_app.
  change ([x04] ++ pubkey) with (x04 :: pubkey).
  destruct (recover P sig (sha3_256 P b)) as [pk| e |]; try reflexivity.
  destruct (bytes_eqb pk (x04 :: pubkey)); reflexivity.
Qed.

End Signatures.

(** C7, as the code has it: a signature that is not 65 bytes long makes
    [ECCx.verify] raise [InvalidSignature('Invalid length')] at once,
    with no call made and whatever the key and the message.  The class
    is the one raised, without arguments, when the recovered key is not
    the claimed one: the two failures are one kind of error and differ
    by the message only. *)
Theorem verify_bad_length P (self : ECCx.t) (sig : bytes) (m : pyobj) (w : world) :
  len sig <> 65 ->
  ECCx.verify P self sig m w
  = (Raise (Exn InvalidSignature ["Invalid length"%string]), w)
  /\ forall sig' b pk w',
       len sig' = 65 -> len (ECCx.raw_pubkey self) = 64 ->
       as_bytes m = Ok b ->
       recover P sig' (sha3_256 P b) = Ok pk ->
       pk <> [x04] ++ ECCx.raw_pubkey self ->
       fst (ECCx.verify P self sig' m w') = Raise (Exn InvalidSignature []).
Proof.
  intros Hl. split.
  - unfold ECCx.verify. destruct (Z.eqb_spec (len sig) 65); [contradiction|].
    reflexivity.
  - intros sig' b pk w' H65 H64 Hb Hr Hne. unfold ECCx.verify.
    rewrite H65. change (negb (65 =? 65)) with false. cbv iota.
    erewrite ecdsa_verify_run by eassumption. rewrite Hr.
    destruct (bytes_eqb pk ([x04] ++ ECCx.raw_pubkey self)) eqn:E;
      [|reflexivity].
    apply bytes_eqb_eq in E. contradiction.
Qed.

Lemma verify_bad_length_witness :
  len (@nil byte) <> 65
  /\ ECCx.verify Toy.providers (Toy.pair_of Toy.key_a) [] (PyBytes [x01])
       Toy.world0
     = (Raise (Exn InvalidSignature ["Invalid length"%string]), Toy.world0).
Proof.
  assert (H : len (@nil byte) <> 65) by (vm_compute; discriminate).
  split; [exact H|].
  exact (proj1 (@verify_bad_length Toy.providers (Toy.pair_of Toy.key_a)
                  [] (PyBytes [x01]) Toy.world0 H)).
Defined.

(** C7 as stated fails: the empty signature and a 65-byte signature made
    with another key are both refused with an exception of class
    [InvalidSignature]. *)
Lemma verify_length_error_is_mismatch_kind :
  exists sig_b w1 e1 w2 e2 w3,
    ECCx.sign Toy.providers (Toy.pair_of Toy.key_b) (PyBytes [x01]) Toy.world0
    = (Ok sig_b, w1)
    /\ len sig_b = 65
    /\ recover Toy.providers sig_b (sha3_256 Toy.providers [x01])
       = Ok ([x04] ++ Toy.key_b ++ Toy.key_b)
    /\ ECCx.verify Toy.providers (Toy.pair_of Toy.key_a) sig_b (PyBytes [x01])
         w1 = (Raise e2, w3)
    /\ len (@nil byte) <> 65
    /\ ECCx.verify Toy.providers (Toy.pair_of Toy.key_a) [] (PyBytes [x01])
         w1 = (Raise e1, w2)
    /\ exn_kind e1 = exn_kind e2.
Proof.
  do 6 eexists.
  split; [vm_compute; reflexivity|].
  split; [vm_compute; reflexivity|].
  split; [vm_compute; reflexivity|].
  split; [vm_compute; reflexivity|].
  split; [vm_compute; discriminate|].
  split; [vm_compute; reflexivity|].
  reflexivity.
Qed.

Lemma toy_recipient_signer :
  ECCx.__init__ Toy.providers (Some Toy.key_a) Toy.world0
  = (Ok (Toy.pair_of Toy.key_a),
     with_calls [call_privtopub Toy.key_a;
                 call_ecc_init (Some Toy.key_a) (Some Toy.key_a)
                   (Some Toy.key_a);
                 call_get_privkey_format Toy.key_a;
                 call_check_key Toy.key_a Toy.key_a Toy.key_a] Toy.world0).
Proof. vm_compute. reflexivity. Qed.

(** C6: an object built by the constructor signs a message into 65
    bytes: the library's recoverable signature, made with the object's
    private key over the SHA3-256 digest of the message.  Its own
    [verify] then returns [True] for that signature and that message,
    and it does so by recovering and comparing: it hashes the message,
    asks the library for the key the signature recovers to, and the
    answer is [True] because that key is 0x04 followed by the object's
    public key.  On any 65-byte signature the outcome of [verify] is
    decided by that recovery and that comparison alone: a key that
    differs is [InvalidSignature], a failed recovery is
    [CoincurveError]. *)
Theorem sign_verify_roundtrip P (raw_privkey : option bytes) (w0 w0' : world)
    (self : ECCx.t) (m : pyobj) (b : bytes) (w : world) :
  ProviderLaws P ->
  ECCx.__init__ P raw_privkey w0 = (Ok self, w0') ->
  as_bytes m = Ok b ->
  exists sig,
    ECCx.sign P self m w
    = (Ok sig,
       with_calls [call_private_key (privkey self);
                   call_sha3_256 b;
                   call_sign_recoverable (privkey self) (sha3_256 P b)] w)
    /\ len sig = 65
    /\ sign_recoverable P (privkey self) (sha3_256 P b) = Ok sig
    /\ recover P sig (sha3_256 P b) = Ok ([x04] ++ ECCx.raw_pubkey self)
    /\ (forall w1,
          ECCx.verify P self sig m w1
          = (Ok true,
             with_calls [call_sha3_256 b;
                         call_recover sig (sha3_256 P b)] w1))
    /\ (forall sig' w1,
          len sig' = 65 ->
          ECCx.verify P self sig' m w1
          = (match recover P sig' (sha3_256 P b) with
             | Ok pk =>
                 if bytes_eqb pk ([x04] ++ ECCx.raw_pubkey self)
                 then Ok true
                 else Raise (Exn InvalidSignature [])
             | Raise _ => Raise (Exn CoincurveError [])
             | OutOfFuel => OutOfFuel
             end,
             with_calls [call_sha3_256 b;
                         call_recover sig' (sha3_256 P b)] w1)).
Proof.
  intros L Hinit Hb.
  destruct (@init_valid P _ _ _ _ Hinit) as (H64 & _ & Hc).
  destruct (@sign_recover P L _ _ _ (sha3_256 P b) Hc)
    as (Hpk & sig & Hs & H65 & Hr).
  rewrite upto_from in Hr by lia.
  assert (V : forall sig' w1,
             len sig' = 65 ->
             ECCx.verify P self sig' m w1
             = (match recover P sig' (sha3_256 P b) with
                | Ok pk =>
                    if bytes_eqb pk ([x04] ++ ECCx.raw_pubkey self)
                    then Ok true
                    else Raise (Exn InvalidSignature [])
                | Raise _ => Raise (Exn CoincurveError [])
                | OutOfFuel => OutOfFuel
                end,
                with_calls [call_sha3_256 b;
                            call_recover sig' (sha3_256 P b)] w1)).
  { intros sig' w1 H. unfold ECCx.verify. rewrite H.
    change (negb (65 =? 65)) with false. cbv iota.
    erewrite ecdsa_verify_run by eassumption. reflexivity. }
  exists sig.
  split.
  { unfold ECCx.sign, ecdsa_sign, coincurve_PrivateKey,
      coincurve_sign_recoverable.
    rewrite raw_privkey_eq.
    unfold bind at 1. unfold bind at 1. unfold bind at 1. unfold bind at 1.
    unfold log at 1. unfold bind at 1. unfold lift at 1. rewrite Hpk.
    unfold ret at 1.
    unfold bind at 1. erewrite sha3_run by eassumption.
    unfold bind at 1. unfold log at 1. unfold lift at 1. rewrite Hs.
    rewrite H65. unfold bind, assert, ret. simpl.
    now rewrite !with_calls_app. }
  split; [exact H65|]. split; [exact Hs|]. split; [exact Hr|].
  split; [|exact V].
  intros w1. rewrite (V sig w1 H65), Hr, bytes_eqb_refl. reflexivity.
Qed.

Lemma sign_verify_roundtrip_witness :
  exists sig,
    ECCx.sign Toy.providers (Toy.pair_of Toy.key_a) (PyBytes [x68; x69])
      Toy.world0
    = (Ok sig,
       with_calls [call_private_key Toy.key_a;
                   call_sha3_256 [x68; x69];
                   call_sign_recoverable Toy.key_a
                     (sha3_256 Toy.providers [x68; x69])] Toy.world0)
    /\ len sig = 65
    /\ recover Toy.providers sig (sha3_256 Toy.providers [x68; x69])
       = Ok ([x04] ++ Toy.key_a ++ Toy.key_a)
    /\ ECCx.verify Toy.providers (Toy.pair_of Toy.key_a) sig
         (PyBytes [x68; x69]) Toy.world0
       = (Ok true,
          with_calls [call_sha3_256 [x68; x69];
                      call_recover sig (sha3_256 Toy.providers [x68; x69])]
            Toy.world0)
    /\ fst (ECCx.verify Toy.providers (Toy.pair_of Toy.key_a)
              (repeat x00 65) (PyBytes [x68; x69]) Toy.world0)
       = Raise (Exn CoincurveError []).
Proof.
  destruct (@sign_verify_roundtrip Toy.providers (Some Toy.key_a)
              Toy.world0 _ (Toy.pair_of Toy.key_a) (PyBytes [x68; x69])
              [x68; x69] Toy.world0 ToyFacts.laws toy_recipient_signer
              eq_refl)
    as (sig & Hs & H65 & _ & Hr & Hv & Hany).
  exists sig. split; [exact Hs|]. split; [exact H65|].
  split; [exact Hr|]. split; [apply Hv|].
  rewrite (Hany (repeat x00 65) Toy.world0) by (vm_compute; reflexivity).
  vm_compute. reflexivity.
Defined.

(* ------------------------------------------------------------------ *)
(** ** ECIES *)

Lemma logged_lift_inv {A} c (r : result A) w a w' :
  (log c ;; lift r) w = (Ok a, w') -> r = Ok a /\ w' = with_calls [c] w.
Proof. unfold bind, log, lift. intros H. now inversion H. Qed.

Lemma logged_ret_inv {A} c (v : A) w a w' :
  (log c ;; ret v) w = (Ok a, w') -> a = v /\ w' = with_calls [c] w.
Proof. unfold bind, log, ret. intros H. now inversion H. Qed.

Lemma gen_IV_inv w iv w' :
  pyelliptic_gen_IV w = (Ok iv, w') ->
  exists rest,
    ivs w = iv :: rest
    /\ w' = mkWorld (calls w ++ [call_gen_IV]) (keygen w) rest.
Proof.
  unfold pyelliptic_gen_IV, bind, log. simpl.
  destruct (ivs w) as [|iv0 rest]; intros H; inversion H; subst.
  now exists rest.
Qed.

Section ECIES.
Variable P : Providers.

(** The derivation of the protocol, [eciesKDF(key_material, 32)]: one
    turn, one digest, its first 32 bytes. *)
Lemma eciesKDF_32 km w :
  eciesKDF P km 32 w
  = (Ok (upto 32 (sha256 P (kdf_input km 1))),
     with_calls [call_sha256 (kdf_input km 1)] w).
Proof.
  rewrite eciesKDF_run by (vm_compute; discriminate).
  change (Z.to_nat (kdf_turns 32)) with 1%nat. simpl.
  now rewrite app_nil_r.
Qed.

(** What a run of [ecies_encrypt] that returns has done. *)
Lemma ecies_encrypt_inv data pub m w env w' :
  ECCx.ecies_encrypt P data pub m w = (Ok env, w') ->
  exists ephem z iv c log0,
    valid_object P ephem
    /\ raw_get_ecdh_key P (privkey ephem) (upto 32 pub) (from 32 pub) = Ok z
    /\ len z = 32
    /\ len iv = 16
    /\ ciphering P (key_enc_of P z) iv 1 data = Ok c
    /\ len c = len data
    /\ len (hmac_sha256 P (key_mac_of P z) (iv ++ c ++ m)) = 32
    /\ env = [x04] ++ ECCx.raw_pubkey ephem ++ iv ++ c
             ++ hmac_sha256 P (key_mac_of P z) (iv ++ c ++ m)
    /\ calls w' = log0 ++ [call_hmac_sha256 (key_mac_of P z) (iv ++ c ++ m)].
Proof.
  unfold ECCx.ecies_encrypt. intros H.
  apply bind_Ok_inv in H. destruct H as (ephem & w1 & Hinit & H).
  apply init_valid in Hinit.
  apply bind_Ok_inv in H. destruct H as (z & w2 & Hz & H).
  apply logged_lift_inv in Hz. destruct Hz as (Hz & ->).
  apply bind_Ok_inv in H. destruct H as ([] & w3 & Hlz & H).
  apply assert_Ok_inv in Hlz. destruct Hlz as (Hlz & ->).
  apply Z.eqb_eq in Hlz.
  apply bind_Ok_inv in H. destruct H as (key & w4 & Hk & H).
  rewrite eciesKDF_32 in Hk. inversion Hk; subst key w4; clear Hk.
  apply bind_Ok_inv in H. destruct H as ([] & w5 & Hlk & H).
  apply assert_Ok_inv in Hlk. destruct Hlk as (_ & ->).
  apply bind_Ok_inv in H. destruct H as (kmac & w6 & Hm & H).
  apply logged_ret_inv in Hm. destruct Hm as (-> & ->).
  apply bind_Ok_inv in H. destruct H as ([] & w7 & Hlm & H).
  apply assert_Ok_inv in Hlm. destruct Hlm as (_ & ->).
  apply bind_Ok_inv in H. destruct H as (iv & w8 & Hiv & H).
  apply gen_IV_inv in Hiv. destruct Hiv as (rest & _ & ->).
  apply bind_Ok_inv in H. destruct H as ([] & w9 & Hliv & H).
  apply assert_Ok_inv in Hliv. destruct Hliv as (Hliv & ->).
  apply Z.eqb_eq in Hliv.
  apply bind_Ok_inv in H. destruct H as (c & w10 & Hc & H).
  apply logged_lift_inv in Hc. destruct Hc as (Hc & ->).
  apply bind_Ok_inv in H. destruct H as ([] & w11 & Hlc & H).
  apply assert_Ok_inv in Hlc. destruct Hlc as (Hlc & ->).
  apply Z.eqb_eq in Hlc.
  apply bind_Ok_inv in H. destruct H as (tag & w12 & Ht & H).
  apply logged_ret_inv in Ht. destruct Ht as (-> & ->).
  apply bind_Ok_inv in H. destruct H as ([] & w13 & Hlt & H).
  apply assert_Ok_inv in Hlt. destruct Hlt as (Hlt & ->).
  apply Z.eqb_eq in Hlt.
  apply bind_Ok_inv in H. destruct H as ([] & w14 & Ha & H).
  apply assert_Ok_inv in Ha. destruct Ha as (_ & ->).
  apply bind_Ok_inv in H. destruct H as ([] & w15 & Ha & H).
  apply assert_Ok_inv in Ha. destruct Ha as (_ & ->).
  inversion H; subst env w'; clear H.
  pose proof Hinit as (H64 & _).
  assert (Hfrom : from (1 + 64) (ascii_chr 4 ++ ECCx.raw_pubkey ephem
                                   ++ iv ++ c) = iv ++ c).
  { rewrite app_assoc. apply from_app. rewrite len_app, H64. reflexivity. }
  change (from (1 + 64) (ascii_chr 4 ++ ECCx.raw_pubkey ephem ++ iv ++ c))
    with (from 65 (byte_of_Z 4 :: ECCx.raw_pubkey ephem ++ iv ++ c))
    in Hfrom.
  change (from (1 + 64) (ascii_chr 4 ++ ECCx.raw_pubkey ephem ++ iv ++ c))
    with (from 65 (byte_of_Z 4 :: ECCx.raw_pubkey ephem ++ iv ++ c))
    in Hlt.
  rewrite Hfrom in Hlt |- *. unfold str_to_bytes in Hlt |- *.
  rewrite <- app_assoc in Hlt.
  exists ephem, z, iv, c. eexists.
  split; [exact Hinit|]. split; [exact Hz|]. split; [exact Hlz|].
  split; [exact Hliv|]. split; [exact Hc|]. split; [exact Hlc|].
  split; [exact Hlt|].
  split.
  - unfold key_mac_of. change (byte_of_Z 4) with x04.
    rewrite <- !app_assoc. reflexivity.
  - cbn [calls with_calls]. unfold key_mac_of.
    rewrite <- (app_assoc iv c m). reflexivity.
Qed.

End ECIES.

(** The slices [ecies_decrypt] takes of an envelope. *)
Lemma envelope_slices (R iv c tag : bytes) :
  len R = 64 -> len iv = 16 -> len tag = 32 ->
  let env := [x04] ++ R ++ iv ++ c ++ tag in
  upto 1 env = [x04]
  /\ between 1 65 env = R
  /\ from (-32) env = tag
  /\ between 65 (-32) env = iv ++ c
  /\ between 65 81 env = iv
  /\ between 81 (-32) env = c
  /\ len env = 113 + len c.
Proof.
  intros HR Hiv Htag env. subst env.
  split; [now apply upto_app|].
  split; [apply (@between_app _ 1 65); [reflexivity | lia]|].
  split.
  { replace ([x04] ++ R ++ iv ++ c ++ tag)
      with (([x04] ++ R ++ iv ++ c) ++ tag)
      by (now rewrite <- !app_assoc).
    apply (@from_neg_app _ 32); [assumption | lia]. }
  split.
  { replace ([x04] ++ R ++ iv ++ c ++ tag)
      with (([x04] ++ R) ++ (iv ++ c) ++ tag)
      by (now rewrite <- !app_assoc).
    apply (@between_neg_app _ 65 32); [rewrite len_app, HR; reflexivity
                                      | assumption | lia]. }
  split.
  { replace ([x04] ++ R ++ iv ++ c ++ tag)
      with (([x04] ++ R) ++ iv ++ c ++ tag)
      by (now rewrite <- !app_assoc).
    apply (@between_app _ 65 81); [rewrite len_app, HR; reflexivity | lia]. }
  split.
  { replace ([x04] ++ R ++ iv ++ c ++ tag)
      with (([x04] ++ R ++ iv) ++ c ++ tag)
      by (now rewrite <- !app_assoc).
    apply (@between_neg_app _ 81 32);
      [rewrite !len_app, HR, Hiv; reflexivity | assumption | lia]. }
  rewrite !len_app, HR, Hiv, Htag. change (len [x04]) with 1. lia.
Qed.

(** C1, as the code has it: the tag is HMAC-SHA256 under the MAC key
    over [msg[65:]] followed by the shared MAC data, and [msg[65:]] is
    the IV followed by the ciphertext.  The 64 bytes of the ephemeral
    public key R are in the envelope but not in what is authenticated.
    In terms of the envelope: its last 32 bytes are the MAC of
    [env[65:-32] ‖ shared_mac_data], which is what [ecies_decrypt]
    recomputes. *)
Theorem ecies_encrypt_tag P (data raw_pubkey shared_mac_data : bytes)
    (w : world) (env : bytes) (w' : world) :
  ECCx.ecies_encrypt P data raw_pubkey shared_mac_data w = (Ok env, w') ->
  exists ephem z iv c log0,
    raw_get_ecdh_key P (privkey ephem) (upto 32 raw_pubkey)
      (from 32 raw_pubkey) = Ok z
    /\ len (ECCx.raw_pubkey ephem) = 64 /\ len iv = 16 /\ len c = len data
    /\ env = [x04] ++ ECCx.raw_pubkey ephem ++ iv ++ c
             ++ hmac_sha256 P (key_mac_of P z) (iv ++ c ++ shared_mac_data)
    /\ calls w'
       = log0 ++ [call_hmac_sha256 (key_mac_of P z)
                    (iv ++ c ++ shared_mac_data)]
    /\ from (-32) env
       = hmac_sha256 P (key_mac_of P z)
           (between 65 (-32) env ++ shared_mac_data).
Proof.
  intros H. apply ecies_encrypt_inv in H.
  destruct H as (ephem & z & iv & c & log0 & V & Hz & _ & Hiv & _ & Hc
                 & Ht & -> & Hlog).
  destruct V as (H64 & _).
  exists ephem, z, iv, c, log0.
  repeat (split; [assumption|]).
  split; [reflexivity|]. split; [assumption|].
  destruct (@envelope_slices _ _ c _ H64 Hiv Ht) as (_ & _ & -> & -> & _).
  now rewrite <- app_assoc.
Qed.

Lemma ecies_encrypt_tag_witness :
  exists ephem z iv c,
    raw_get_ecdh_key Toy.providers (privkey ephem)
      (upto 32 (Toy.key_a ++ Toy.key_a)) (from 32 (Toy.key_a ++ Toy.key_a))
    = Ok z
    /\ len (ECCx.raw_pubkey ephem) = 64 /\ len iv = 16
    /\ len c = len [x61; x62; x63]
    /\ fst (ECCx.ecies_encrypt Toy.providers [x61; x62; x63]
              (Toy.key_a ++ Toy.key_a) [x07] Toy.world0)
       = Ok ([x04] ++ ECCx.raw_pubkey ephem ++ iv ++ c
             ++ hmac_sha256 Toy.providers (key_mac_of Toy.providers z)
                  (iv ++ c ++ [x07])).
Proof.
  destruct (ECCx.ecies_encrypt Toy.providers [x61; x62; x63]
              (Toy.key_a ++ Toy.key_a) [x07] Toy.world0) as [r w'] eqn:E.
  destruct r as [env| e |]; [| vm_compute in E; discriminate
                              | vm_compute in E; discriminate].
  destruct (@ecies_encrypt_tag Toy.providers _ _ _ _ _ _ E)
    as (ephem & z & iv & c & log0 & Hz & H64 & Hiv & Hc & He & _).
  exists ephem, z, iv, c.
  repeat (split; [assumption|]). simpl fst. now rewrite He.
Defined.

(** C1 as stated fails: in this run the one HMAC call made has for its
    message [env[65:-32] ‖ shared_mac_data], the IV and the ciphertext;
    the message with the ephemeral key in front, [env[1:-32] ‖
    shared_mac_data], is 64 bytes longer, and the tag is not its MAC. *)
Lemma ecies_encrypt_tag_leaves_out_R :
  exists env w' kmac msg,
    ECCx.ecies_encrypt Toy.providers [x61; x62; x63]
      (Toy.key_a ++ Toy.key_a) [x07] Toy.world0 = (Ok env, w')
    /\ hmac_calls (calls w') = [(kmac, msg)]
    /\ msg = between 65 (-32) env ++ [x07]
    /\ len (between 1 (-32) env ++ [x07]) = len msg + 64
    /\ from (-32) env = hmac_sha256 Toy.providers kmac msg
    /\ from (-32) env
       <> hmac_sha256 Toy.providers kmac (between 1 (-32) env ++ [x07]).
Proof.
  do 4 eexists.
  split; [vm_compute; reflexivity|].
  split; [vm_compute; reflexivity|].
  split; [vm_compute; reflexivity|].
  split; [vm_compute; reflexivity|].
  split; [vm_compute; reflexivity|].
  vm_compute. discriminate.
Qed.

(** *** Runs under the laws *)

Lemma assert_run {A} cond (k : M A) w :
  cond = true -> (assert cond ;; k) w = k w.
Proof. intros ->. reflexivity. Qed.

Lemma logged_lift_run {A B} c (r : result A) a (k : A -> M B) w :
  r = Ok a -> (x <- (log c ;; lift r) ;; k x) w = k a (with_calls [c] w).
Proof. intros ->. reflexivity. Qed.

Lemma logged_ret_run {A B} c (v : A) (k : A -> M B) w :
  (x <- (log c ;; ret v) ;; k x) w = k v (with_calls [c] w).
Proof. reflexivity. Qed.

Lemma gen_IV_run {B} (k : bytes -> M B) w iv rest :
  ivs w = iv :: rest ->
  (x <- pyelliptic_gen_IV ;; k x) w
  = k iv (mkWorld (calls w ++ [call_gen_IV]) (keygen w) rest).
Proof.
  intros H. unfold pyelliptic_gen_IV, bind, log. simpl. now rewrite H.
Qed.

Section ECIESRuns.
Variable P : Providers.
Hypothesis L : ProviderLaws P.

Lemma len_kdf_32 z : len (upto 32 (sha256 P (kdf_input z 1))) = 32.
Proof. rewrite len_upto, (sha256_len L) by lia. reflexivity. Qed.

Lemma len_key_enc_of z : len (key_enc_of P z) = 16.
Proof.
  unfold key_enc_of. rewrite len_upto, len_kdf_32 by lia. reflexivity.
Qed.

(** [ecies_encrypt], step by step, when the random source hands out a
    good pair [k] and a 16-byte [iv] and the key agreement and the
    cipher answer [z] and [c]. *)
Lemma ecies_encrypt_run data pub m w skipped k ks iv rest z c :
  keygen w = skipped ++ k :: ks -> Forall short_key skipped ->
  ivs w = iv :: rest ->
  good_pair P k -> len iv = 16 ->
  raw_get_ecdh_key P (privkey k) (upto 32 pub) (from 32 pub) = Ok z ->
  len z = 32 ->
  ciphering P (key_enc_of P z) iv 1 data = Ok c -> len c = len data ->
  exists w',
    ECCx.ecies_encrypt P data pub m w
    = (Ok ([x04] ++ ECCx.raw_pubkey k ++ iv ++ c
           ++ hmac_sha256 P (key_mac_of P z) (iv ++ c ++ m)), w').
Proof.
  intros Hk Hs Hivs Hg Hiv Hz Hlz Hc Hlc.
  destruct (@init_generate P w skipped k ks Hk Hs Hg) as [l Hinit].
  assert (H64 : len (ECCx.raw_pubkey k) = 64).
  { rewrite raw_pubkey_eq. apply Hg. }
  unfold ECCx.ecies_encrypt.
  erewrite bind_Ok by exact Hinit.
  unfold ecc_raw_get_ecdh_key.
  erewrite logged_lift_run by exact Hz.
  rewrite assert_run by (rewrite Hlz; reflexivity).
  erewrite bind_Ok by apply eciesKDF_32.
  rewrite assert_run by (rewrite len_kdf_32; reflexivity).
  unfold hashlib_sha256. rewrite logged_ret_run.
  rewrite assert_run by (rewrite (sha256_len L); reflexivity).
  erewrite gen_IV_run by (simpl; exact Hivs).
  rewrite assert_run by (rewrite Hiv; reflexivity).
  unfold pyelliptic_ciphering.
  erewrite logged_lift_run by exact Hc.
  rewrite assert_run by (rewrite Hlc; apply Z.eqb_refl).
  unfold pyelliptic_hmac_sha256. rewrite logged_ret_run.
  rewrite assert_run by (rewrite (hmac_len L); reflexivity).
  assert (Hfrom : from (1 + 64) (ascii_chr 4 ++ ECCx.raw_pubkey k ++ iv ++ c)
                  = iv ++ c).
  { rewrite app_assoc. apply from_app. rewrite len_app, H64. reflexivity. }
  rewrite Hfrom. unfold str_to_bytes.
  rewrite <- (app_assoc iv c m).
  set (tag := hmac_sha256 P _ (iv ++ c ++ m)).
  assert (Ht : len tag = 32) by apply (hmac_len L).
  assert (Hlen : len ((ascii_chr 4 ++ ECCx.raw_pubkey k ++ iv ++ c) ++ tag)
                 = 113 + len data).
  { rewrite !len_app, H64, Hiv, Hlc, Ht. change (len (ascii_chr 4)) with 1.
    lia. }
  rewrite assert_run.
  2:{ rewrite Hlen. apply andb_true_iff. split; apply Z.eqb_eq; lia. }
  rewrite assert_run.
  2:{ rewrite Hlen. unfold ECCx.ecies_encrypt_overhead_length.
      apply Z.eqb_eq. lia. }
  unfold ret. eexists. f_equal. f_equal.
  change (ascii_chr 4) with [x04]. now rewrite <- !app_assoc.
Qed.


End ECIESRuns.

(** What [ecies_encrypt] and [ecies_decrypt] find when a valid
    recipient meets fresh randomness: the pair and the IV handed out,
    the secret both sides agree on, and the ciphertext. *)
Lemma ecies_setting P (recipient : ECCx.t) (data : bytes) (w : world) :
  ProviderLaws P -> valid_object P recipient -> fresh_randomness P w ->
  exists skipped k ks iv rest z c,
    keygen w = skipped ++ k :: ks /\ Forall short_key skipped
    /\ ivs w = iv :: rest
    /\ good_pair P k /\ len iv = 16 /\ len z = 32
    /\ raw_get_ecdh_key P (privkey k) (upto 32 (ECCx.raw_pubkey recipient))
         (from 32 (ECCx.raw_pubkey recipient)) = Ok z
    /\ raw_get_ecdh_key P (privkey recipient) (upto 32 (ECCx.raw_pubkey k))
         (from 32 (ECCx.raw_pubkey k)) = Ok z
    /\ ciphering P (key_enc_of P z) iv 1 data = Ok c
    /\ len c = len data
    /\ ciphering P (key_enc_of P z) iv 0 c = Ok data.
Proof.
  intros L (_ & _ & Vc)
    (skipped & k & ks & iv & rest & Hk & Hs & Hg & Hivs & Hiv).
  pose proof Hg as (_ & _ & _ & Kc).
  rewrite <- raw_pubkey_eq in Kc.
  destruct (ecdh_agree L _ _ _ _ _ _ Kc Vc) as (z & Hlz & Hz1 & Hz2).
  destruct (cipher_inverse L (key_enc_of P z) iv data
              (len_key_enc_of L z) Hiv) as (c & Hc & Hlc & Hd).
  exists skipped, k, ks, iv, rest, z, c. auto 12.
Qed.

(** C8: with the laws of the libraries, a valid recipient and fresh
    randomness, [ecies_encrypt] returns, and the envelope is 113 bytes
    longer than the plaintext (113 bytes for the empty plaintext).  The
    length holds of every envelope [ecies_encrypt] ever returns, since
    the method asserts it before returning. *)
Theorem ecies_encrypt_length P (raw_privkey : option bytes) (w0 w0' : world)
    (recipient : ECCx.t) (data shared_mac_data : bytes) (w : world) :
  ProviderLaws P ->
  ECCx.__init__ P raw_privkey w0 = (Ok recipient, w0') ->
  fresh_randomness P w ->
  (exists env w',
     ECCx.ecies_encrypt P data (ECCx.raw_pubkey recipient) shared_mac_data w
     = (Ok env, w')
     /\ len env = 113 + len data)
  /\ (forall pub w1 env w',
        ECCx.ecies_encrypt P data pub shared_mac_data w1 = (Ok env, w') ->
        len env = 113 + len data).
Proof.
  intros L Hinit Hfresh.
  assert (G : forall pub w1 env w',
             ECCx.ecies_encrypt P data pub shared_mac_data w1 = (Ok env, w')
             -> len env = 113 + len data).
  { intros pub w1 env w' H. apply ecies_encrypt_inv in H.
    destruct H as (ephem & z & iv & c & log0 & V & _ & _ & Hiv & _ & Hc
                   & Ht & -> & _).
    destruct V as (H64 & _).
    rewrite !len_app, H64, Hiv, Hc, Ht. change (len [x04]) with 1. lia. }
  split; [|exact G].
  apply init_valid in Hinit.
  destruct (ecies_setting data L Hinit Hfresh)
    as (skipped & k & ks & iv & rest & z & c & Hk & Hs & Hivs & Hg & Hiv
        & Hlz & Hz & _ & Hc & Hlc & _).
  destruct (@ecies_encrypt_run P L data (ECCx.raw_pubkey recipient)
              shared_mac_data w skipped k ks iv rest z c)
    as [w' Hrun]; try assumption.
  do 2 eexists. split; [exact Hrun|]. eapply G. exact Hrun.
Qed.


Lemma toy_fresh : fresh_randomness Toy.providers Toy.world0.
Proof.
  exists [Toy.pair_of Toy.key_short], (Toy.pair_of Toy.key_b), [], Toy.iv0, [].
  split; [reflexivity|]. split.
  - constructor; [|constructor]. split; vm_compute; discriminate.
  - repeat split; vm_compute; reflexivity.
Qed.

Lemma toy_recipient :
  ECCx.__init__ Toy.providers (Some Toy.key_a) Toy.world0
  = (Ok (Toy.pair_of Toy.key_a),
     with_calls [call_privtopub Toy.key_a;
                 call_ecc_init (Some Toy.key_a) (Some Toy.key_a)
                   (Some Toy.key_a);
                 call_get_privkey_format Toy.key_a;
                 call_check_key Toy.key_a Toy.key_a Toy.key_a] Toy.world0).
Proof. vm_compute. reflexivity. Qed.

Lemma ecies_encrypt_length_witness :
  exists env w',
    ECCx.ecies_encrypt Toy.providers [] (Toy.key_a ++ Toy.key_a) [x07]
      Toy.world0 = (Ok env, w')
    /\ len env = 113 + len (@nil byte).
Proof.
  exact (proj1 (@ecies_encrypt_length Toy.providers (Some Toy.key_a)
                  Toy.world0 _ (Toy.pair_of Toy.key_a) [] [x07] Toy.world0
                  ToyFacts.laws toy_recipient toy_fresh)).
Defined.


(* ------------------------------------------------------------------ *)
(** ** More on the objects of the class *)

Section MoreObjects.
Variable P : Providers.

Ltac unfold_has_valid_keys :=
  unfold ECCx.has_valid_keys, try_except, try_except_if,
    bitcoin_get_privkey_format, ecc_raw_check_key, ECCx._decode_pubkey;
  rewrite ?raw_privkey_eq;
  unfold bind, log, lift, ret, raise.

(** [has_valid_keys] leaves the random source alone and raises
    nothing. *)
Lemma has_valid_keys_quiet self w :
  keygen (snd (ECCx.has_valid_keys P self w)) = keygen w
  /\ ivs (snd (ECCx.has_valid_keys P self w)) = ivs w
  /\ forall e, fst (ECCx.has_valid_keys P self w) <> Raise e.
Proof.
  unfold_has_valid_keys.
  destruct (get_privkey_format P (privkey self)) as [[]| e |];
    try (destruct (ECCx.is_AssertionError e));
    try (simpl; repeat split; discriminate).
  destruct (verify_pubkey (ECCx.raw_pubkey self)) as [[]| e |];
    try (simpl; repeat split; discriminate).
  destruct (raw_check_key P (privkey self) _ _) as [z| e |];
    try (simpl; repeat split; discriminate).
  destruct (negb (z =? 0)); simpl; repeat split; discriminate.
Qed.

(** It answers [False] on an object whose private key the format test
    lets through or refuses, and whose public key is not 64 bytes. *)
Lemma has_valid_keys_bad_pubkey self w :
  len (ECCx.raw_pubkey self) <> 64 ->
  get_privkey_format P (privkey self) <> OutOfFuel ->
  fst (ECCx.has_valid_keys P self w) = Ok false.
Proof.
  intros Hl Hf. unfold_has_valid_keys.
  assert (V : exists e, verify_pubkey (ECCx.raw_pubkey self) = Raise e).
  { unfold verify_pubkey.
    destruct (Z.eqb_spec (len (ECCx.raw_pubkey self)) 64);
      [contradiction | simpl; eauto]. }
  destruct V as [e' V]. rewrite V.
  destruct (get_privkey_format P (privkey self)) as [[]| e |];
    try (destruct (ECCx.is_AssertionError e)); try reflexivity.
  contradiction.
Qed.

Lemma ECC_init_None_inv w s w1 :
  ECC_init P None None None w = (Ok s, w1) ->
  exists rest,
    keygen w = s :: rest
    /\ w1 = mkWorld (calls w ++ [call_ecc_init None None None]) rest (ivs w).
Proof.
  unfold ECC_init, bind, log. simpl.
  destruct (keygen w) as [|k rest]; intros H; inversion H; subst.
  now exists rest.
Qed.

(** The object the loop returns did not ask for another turn. *)
Lemma init_loop_kept fuel x y priv :
  forall w self w',
    ECCx.init_loop P fuel x y priv w = (Ok self, w') ->
    privkey self = [] \/ len (privkey self) = 32.
Proof.
  induction fuel as [|fuel IH]; intros w self w' H; simpl in H;
    [discriminate|].
  apply bind_Ok_inv in H. destruct H as (s & w1 & _ & H).
  rewrite raw_privkey_eq in H.
  destruct (truthy (privkey s) && negb (len (privkey s) =? 32)) eqn:C.
  - eapply IH. exact H.
  - apply bind_Ok_inv in H. destruct H as (ok & w2 & _ & H).
    destruct ok; simpl in H; [|discriminate]. inversion H; subst.
    apply andb_false_iff in C. destruct C as [T|N].
    + left. destruct (privkey self); [reflexivity | discriminate].
    + right. apply negb_false_iff, Z.eqb_eq in N. exact N.
Qed.

(** Without a key given, the loop hands back one of the pairs the
    random source held, after the pairs it tried again. *)
Lemma init_loop_None_inv fuel :
  forall w self w',
    ECCx.init_loop P fuel None None None w = (Ok self, w') ->
    exists skipped ks,
      keygen w = skipped ++ self :: ks /\ keygen w' = ks
      /\ ivs w' = ivs w /\ Forall short_key skipped.
Proof.
  induction fuel as [|fuel IH]; intros w self w' H; simpl in H;
    [discriminate|].
  apply bind_Ok_inv in H. destruct H as (s & w1 & Hs & H).
  apply ECC_init_None_inv in Hs. destruct Hs as (rest & Hk & ->).
  rewrite raw_privkey_eq in H.
  destruct (truthy (privkey s) && negb (len (privkey s) =? 32)) eqn:C.
  - apply IH in H. destruct H as (skipped & ks & Hk' & Hks & Hiv & Hf).
    simpl in Hk', Hiv. exists (s :: skipped), ks.
    split; [rewrite Hk, Hk'; reflexivity|].
    split; [exact Hks|]. split; [exact Hiv|].
    constructor; [|exact Hf].
    apply andb_true_iff in C. destruct C as (T & N).
    apply negb_true_iff, Z.eqb_neq in N.
    split; [|exact N]. intros E. rewrite E in T. discriminate.
  - apply bind_Ok_inv in H. destruct H as (ok & w2 & Hv & H).
    destruct (has_valid_keys_quiet s
                (mkWorld (calls w ++ [call_ecc_init None None None]) rest
                   (ivs w))) as (Qk & Qi & _).
    rewrite Hv in Qk, Qi. simpl in Qk, Qi.
    destruct ok; simpl in H; [|discriminate]. injection H as <- <-.
    exists [], rest. auto.
Qed.

(** With a key given, the loop hands back what the base class made of
    the key and the two halves. *)
Lemma init_loop_given_inv fuel x y k :
  forall w self w',
    ECCx.init_loop P fuel (Some x) (Some y) (Some k) w = (Ok self, w') ->
    ecc_set_keys P x y k = Ok self.
Proof.
  induction fuel as [|fuel IH]; intros w self w' H; simpl in H;
    [discriminate|].
  apply bind_Ok_inv in H. destruct H as (s & w1 & Hs & H).
  apply logged_lift_inv in Hs. destruct Hs as (Hs & ->).
  destruct (truthy (ECCx.raw_privkey s)
            && negb (len (ECCx.raw_privkey s) =? 32)).
  - eapply IH; eassumption.
  - apply bind_Ok_inv in H. destruct H as ([|] & w2 & _ & H);
      simpl in H; [|discriminate].
    inversion H; subst. exact Hs.
Qed.

(** With a key given whose object asks for another turn, every turn is
    the same and the fuel always runs out. *)
Lemma init_loop_given_stuck x y k self :
  ecc_set_keys P x y k = Ok self -> short_key self ->
  forall fuel w,
    fst (ECCx.init_loop P fuel (Some x) (Some y) (Some k) w) = OutOfFuel.
Proof.
  intros Hs (Hne & Hlen).
  assert (T : truthy (privkey self) = true)
    by (destruct (privkey self); [contradiction | reflexivity]).
  assert (N : negb (len (privkey self) =? 32) = true)
    by (apply negb_true_iff, Z.eqb_neq; exact Hlen).
  induction fuel as [|fuel IH]; intros w; [reflexivity|].
  rewrite init_loop_S. unfold ECC_init.
  erewrite logged_lift_run by exact Hs.
  rewrite raw_privkey_eq, T, N. apply IH.
Qed.

End MoreObjects.

(** X1: [has_valid_keys] never raises: whatever goes wrong inside, the
    library's exceptions included, comes out as the answer [False].  It
    answers [True] exactly on an object whose public key has 64 bytes,
    whose private key [bitcoin] knows the format of and whose halves
    pass the library's check; and it draws nothing from the random
    source. *)
Theorem has_valid_keys_never_raises P (self : ECCx.t) (w : world) :
  (forall e, fst (ECCx.has_valid_keys P self w) <> Raise e)
  /\ (fst (ECCx.has_valid_keys P self w) = Ok true <-> valid_object P self)
  /\ keygen (snd (ECCx.has_valid_keys P self w)) = keygen w
  /\ ivs (snd (ECCx.has_valid_keys P self w)) = ivs w.
Proof.
  destruct (has_valid_keys_quiet P self w) as (Hk & Hi & Hr).
  split; [exact Hr|]. split; [|now split].
  split.
  - destruct (ECCx.has_valid_keys P self w) as [r w'] eqn:E. simpl.
    intros ->. eapply has_valid_keys_true. exact E.
  - intros V. now rewrite has_valid_keys_valid.
Qed.

(** X2: a 64-byte public key is decoded into the curve name and two
    32-byte halves, and the [raw_pubkey] of an object holding the halves
    is the key again. *)
Theorem decode_pubkey_roundtrip (key : bytes) :
  len key = 64 ->
  exists x y,
    ECCx._decode_pubkey key = Ok (ECCx.curve, x, y, 64)
    /\ len x = 32 /\ len y = 32
    /\ forall priv, ECCx.raw_pubkey (mkECC priv x y) = key.
Proof.
  intros H. exists (upto 32 key), (from 32 key).
  unfold ECCx._decode_pubkey. rewrite verify_pubkey_Ok by assumption.
  split; [reflexivity|].
  split; [rewrite len_upto; lia|]. split; [rewrite len_from; lia|].
  intros priv. rewrite raw_pubkey_eq. simpl. apply upto_from. lia.
Qed.

Lemma decode_pubkey_roundtrip_witness :
  exists x y,
    ECCx._decode_pubkey (Toy.key_a ++ Toy.key_b)
    = Ok (ECCx.curve, x, y, 64)
    /\ len x = 32 /\ len y = 32
    /\ forall priv, ECCx.raw_pubkey (mkECC priv x y) = Toy.key_a ++ Toy.key_b.
Proof.
  apply (@decode_pubkey_roundtrip (Toy.key_a ++ Toy.key_b)).
  vm_compute. reflexivity.
Defined.

(** X3: an object built from a given private key is what the base class
    made of that key and the two halves of the 64-byte public key
    [bitcoin] derived from it; the object passed [has_valid_keys], and
    its private key is empty or 32 bytes long. *)
Theorem init_with_key P (k : bytes) (w : world) (self : ECCx.t) (w' : world) :
  ECCx.__init__ P (Some k) w = (Ok self, w') ->
  exists pub,
    bitcoin_privtopub P k = Ok pub /\ len pub = 64
    /\ ecc_set_keys P (upto 32 pub) (from 32 pub) k = Ok self
    /\ valid_object P self
    /\ (privkey self = [] \/ len (privkey self) = 32).
Proof.
  intros H. pose proof (init_valid _ _ _ H) as V.
  unfold ECCx.__init__ in H.
  apply bind_Ok_inv in H. destruct H as ([x y] & w1 & Hxy & H).
  apply bind_Ok_inv in Hxy. destruct Hxy as (pub & w2 & Hp & Hxy).
  unfold privtopub in Hp.
  apply bind_Ok_inv in Hp. destruct Hp as (pub' & w3 & Hb & Hp).
  apply logged_lift_inv in Hb. destruct Hb as (Hb & ->).
  apply bind_Ok_inv in Hp. destruct Hp as ([] & w4 & Hv & Hp).
  apply lift_Ok_inv in Hv. destruct Hv as (Hv & ->).
  apply verify_pubkey_Ok_inv in Hv.
  injection Hp as -> <-.
  apply bind_Ok_inv in Hxy. destruct Hxy as ([] & w5 & _ & Hxy).
  apply bind_Ok_inv in Hxy. destruct Hxy as ([[[c x'] y'] n] & w6 & Hd & Hxy).
  apply lift_Ok_inv in Hd. destruct Hd as (Hd & ->).
  unfold ECCx._decode_pubkey in Hd.
  rewrite verify_pubkey_Ok in Hd by assumption.
  injection Hd as <- <- <- <-. injection Hxy as <- <- <-.
  exists pub. split; [exact Hb|]. split; [exact Hv|].
  split; [eapply init_loop_given_inv; exact H|].
  split; [exact V|]. eapply init_loop_kept. exact H.
Qed.

Lemma init_with_key_witness :
  exists pub,
    bitcoin_privtopub Toy.providers Toy.key_a = Ok pub /\ len pub = 64
    /\ ecc_set_keys Toy.providers (upto 32 pub) (from 32 pub) Toy.key_a
       = Ok (Toy.pair_of Toy.key_a)
    /\ valid_object Toy.providers (Toy.pair_of Toy.key_a)
    /\ (privkey (Toy.pair_of Toy.key_a) = []
        \/ len (privkey (Toy.pair_of Toy.key_a)) = 32).
Proof.
  eapply (@init_with_key Toy.providers Toy.key_a Toy.world0).
  vm_compute. reflexivity.
Defined.

(** X4: an object built without a key is one of the pairs the random
    source held: the pairs before it had a private key that is not empty
    and not 32 bytes long and were dropped, the pairs after it are left
    in the source, and no IV was drawn.  The object passed
    [has_valid_keys], and its private key is empty or 32 bytes long. *)
Theorem init_generated P (w : world) (self : ECCx.t) (w' : world) :
  ECCx.__init__ P None w = (Ok self, w') ->
  exists skipped ks,
    keygen w = skipped ++ self :: ks /\ keygen w' = ks /\ ivs w' = ivs w
    /\ Forall short_key skipped
    /\ valid_object P self
    /\ (privkey self = [] \/ len (privkey self) = 32).
Proof.
  intros H. pose proof (init_valid _ _ _ H) as V.
  rewrite init_None in H.
  pose proof (init_loop_kept _ _ _ _ _ _ H) as K.
  apply init_loop_None_inv in H.
  destruct H as (skipped & ks & H1 & H2 & H3 & H4).
  exists skipped, ks. auto 8.
Qed.

Lemma init_generated_witness :
  exists skipped ks,
    keygen Toy.world0 = skipped ++ Toy.pair_of Toy.key_b :: ks
    /\ ks = [] /\ [Toy.iv0] = ivs Toy.world0
    /\ Forall short_key skipped
    /\ valid_object Toy.providers (Toy.pair_of Toy.key_b)
    /\ (privkey (Toy.pair_of Toy.key_b) = []
        \/ len (privkey (Toy.pair_of Toy.key_b)) = 32).
Proof.
  destruct (ECCx.__init__ Toy.providers None Toy.world0) as [r w'] eqn:E.
  assert (Hr : r = Ok (Toy.pair_of Toy.key_b) /\ keygen w' = []
               /\ ivs w' = [Toy.iv0]).
  { vm_compute in E. injection E as <- <-. repeat split. }
  destruct Hr as (-> & Hk & Hi).
  destruct (@init_generated Toy.providers Toy.world0 _ _ E)
    as (skipped & ks & H1 & H2 & H3 & H4).
  exists skipped, ks. rewrite Hk in H2. rewrite Hi in H3.
  repeat split; auto; apply H4.
Defined.

(** X5: the constructor tries again only over the length of the private
    key.  A generated pair with a 32-byte private key whose public key
    is not 64 bytes long is not replaced by the next pair: the
    constructor raises [CryptoError], and only that pair was drawn. *)
Theorem init_bad_pubkey_not_retried P (w : world) (s : ECC) (ks : list ECC) :
  keygen w = s :: ks ->
  len (privkey s) = 32 ->
  len (pubkey_x s ++ pubkey_y s) <> 64 ->
  get_privkey_format P (privkey s) <> OutOfFuel ->
  fst (ECCx.__init__ P None w)
  = Raise (Exn CryptoError ["Invalid privkey and/or pubkey"%string])
  /\ keygen (snd (ECCx.__init__ P None w)) = ks.
Proof.
  intros Hk Hp Hl Hf.
  rewrite init_None, init_loop_S.
  erewrite bind_Ok by (apply ECC_init_generate; exact Hk).
  rewrite raw_privkey_eq, Hp. simpl negb. rewrite andb_false_r.
  set (w1 := mkWorld _ ks (ivs w)).
  rewrite <- raw_pubkey_eq in Hl.
  pose proof (has_valid_keys_bad_pubkey P s w1 Hl Hf) as Hb.
  destruct (has_valid_keys_quiet P s w1) as (Qk & _).
  unfold bind.
  destruct (ECCx.has_valid_keys P s w1) as [r w2]. simpl in Hb, Qk.
  subst r. simpl. split; [reflexivity | exact Qk].
Qed.

Lemma init_bad_pubkey_not_retried_witness :
  fst (ECCx.__init__ Toy.providers None
         (mkWorld [] [mkECC Toy.key_b Toy.key_short Toy.key_b;
                      Toy.pair_of Toy.key_a] []))
  = Raise (Exn CryptoError ["Invalid privkey and/or pubkey"%string])
  /\ keygen (snd (ECCx.__init__ Toy.providers None
                    (mkWorld [] [mkECC Toy.key_b Toy.key_short Toy.key_b;
                                 Toy.pair_of Toy.key_a] [])))
     = [Toy.pair_of Toy.key_a].
Proof.
  apply (@init_bad_pubkey_not_retried Toy.providers
           (mkWorld [] [mkECC Toy.key_b Toy.key_short Toy.key_b;
                        Toy.pair_of Toy.key_a] [])
           (mkECC Toy.key_b Toy.key_short Toy.key_b)
           [Toy.pair_of Toy.key_a]).
  - reflexivity.
  - vm_compute. reflexivity.
  - vm_compute. discriminate.
  - vm_compute. discriminate.
Defined.

(** X6: the constructor's loop was written for generated keys.  With a
    key given, when the base class takes it over and it is not empty
    and not 32 bytes long, every turn of the loop ends in [continue]
    with nothing changed: the constructor does not return, however much
    fuel the loop is given. *)
Theorem init_with_key_never_returns P (k : bytes) (w : world) (pub : bytes)
    (self : ECC) :
  bitcoin_privtopub P k = Ok pub -> len pub = 64 ->
  ecc_set_keys P (upto 32 pub) (from 32 pub) k = Ok self ->
  short_key self ->
  fst (ECCx.__init__ P (Some k) w) = OutOfFuel
  /\ forall fuel w1,
       fst (ECCx.init_loop P fuel (Some (upto 32 pub)) (Some (from 32 pub))
              (Some k) w1) = OutOfFuel.
Proof.
  intros Hb Hl Hs Hk.
  split; [|intros; now apply init_loop_given_stuck with (self := self)].
  assert (Hp : privtopub P k w = (Ok pub, with_calls [call_privtopub k] w)).
  { unfold privtopub, bitcoin_encode_privtopub.
    erewrite logged_lift_run by exact Hb.
    rewrite verify_pubkey_Ok by assumption. reflexivity. }
  unfold ECCx.__init__.
  erewrite bind_Ok.
  2:{ erewrite bind_Ok by exact Hp.
      rewrite verify_pubkey_Ok by assumption.
      erewrite bind_Ok by reflexivity.
      unfold ECCx._decode_pubkey. rewrite verify_pubkey_Ok by assumption.
      reflexivity. }
  now apply init_loop_given_stuck with (self := self).
Qed.

Lemma init_with_key_never_returns_witness :
  fst (ECCx.__init__ Toy.lenient (Some (Toy.key_a ++ [x01])) Toy.world0)
  = OutOfFuel
  /\ forall fuel w1,
       fst (ECCx.init_loop Toy.lenient fuel
              (Some (upto 32 (Toy.key_a ++ Toy.key_a)))
              (Some (from 32 (Toy.key_a ++ Toy.key_a)))
              (Some (Toy.key_a ++ [x01])) w1) = OutOfFuel.
Proof.
  apply (@init_with_key_never_returns Toy.lenient (Toy.key_a ++ [x01])
           Toy.world0 (Toy.key_a ++ Toy.key_a)
           (mkECC (Toy.key_a ++ [x01]) Toy.key_a Toy.key_a)).
  - vm_compute. reflexivity.
  - vm_compute. reflexivity.
  - vm_compute. reflexivity.
  - split; vm_compute; discriminate.
Defined.

(* ------------------------------------------------------------------ *)
(** ** More on the KDF *)

Lemma upto_firstn {A} n (l : list A) :
  0 <= n -> upto n l = firstn (Z.to_nat n) l.
Proof.
  intros Hn. unfold upto, slice, slice_index.
  destruct (n <? 0) eqn:E; [lia|]. simpl skipn. rewrite Z.sub_0_r.
  destruct (Z.le_ge_cases n (len l)) as [H|H].
  - now rewrite Z.min_l by assumption.
  - rewrite Z.min_r by lia. unfold len.
    rewrite Nat2Z.id, firstn_all, firstn_all2; [reflexivity|].
    unfold len in H. lia.
Qed.

(** A shorter slice of a list is the start of a longer slice of any
    extension of the list. *)
Lemma upto_extends {A} n n' (S T : list A) :
  0 <= n <= n' -> exists tail, upto n' (S ++ T) = upto n S ++ tail.
Proof.
  intros H. rewrite !upto_firstn by lia.
  rewrite firstn_app.
  rewrite <- (firstn_skipn (Z.to_nat n) (firstn (Z.to_nat n') S)).
  rewrite firstn_firstn, Nat.min_l by lia.
  rewrite <- app_assoc. eexists. reflexivity.
Qed.

Lemma Zrange_app start a b :
  Zrange start (a + b) = Zrange start a ++ Zrange (start + Z.of_nat a) b.
Proof.
  revert start. induction a as [|a IH]; intros start; simpl Zrange.
  - now rewrite Z.add_0_r.
  - rewrite IH. simpl. do 3 f_equal. lia.
Qed.

Section MoreKDF.
Variable P : Providers.

(** [eciesKDF_run] again, from -7 on: down to there the quotient is not
    negative and the loop takes its first turn. *)
Lemma eciesKDF_run_from_minus_7 km key_len w :
  -7 <= key_len -> kdf_turns key_len <= 4294967295 ->
  let inputs := map (kdf_input km)
                  (Zrange 1 (Z.to_nat (kdf_turns key_len))) in
  eciesKDF P km key_len w
  = (Ok (upto key_len (concat (map (sha256 P) inputs))),
     with_calls (map call_sha256 inputs) w).
Proof.
  intros H0 Hmax inputs. unfold eciesKDF, kdf_turns in *.
  assert (Hq : (key_len + 7) * 8 / 512 = (key_len + 7) / 64).
  { replace 512 with (8 * 64) by reflexivity.
    rewrite Z.mul_comm. rewrite Z.div_mul_cancel_l; lia. }
  assert (Hpos : 0 <= (key_len + 7) / 64) by (apply Z.div_pos; lia).
  unfold true_div.
  destruct (Z.leb_spec (double_limit * Z.pos (64 * 8))
              (Z.abs ((key_len + 7) * 8))) as [Hbig|_].
  { exfalso.
    pose proof (Z.mul_succ_div_gt (key_len + 7) 64 ltac:(lia)) as Hlt.
    assert (Hd : 2 ^ 64 <= double_limit)
      by (apply Z.leb_le; vm_compute; reflexivity).
    change (2 ^ 64) with 18446744073709551616 in Hd.
    rewrite Z.abs_eq in Hbig by lia.
    change (Z.pos (64 * 8)) with 512 in Hbig. nia. }
  unfold bind at 1. unfold lift at 1.
  change (Z.pos (64 * 8)) with 512%Z.
  change (64 * 8)%positive with 512%positive.
  unfold bind at 1.
  rewrite (@eciesKDF_loop_run P km ((key_len + 7) * 8)
             (Z.to_nat ((key_len + 7) / 64 + 1))); try (rewrite ?Hq; lia).
  unfold ret. subst inputs. rewrite !map_map. reflexivity.
Qed.

End MoreKDF.

(** X7: the keys derived for two lengths agree where they overlap: for
    0 <= n <= n' the result for n is the start of the result for n'
    (whatever else the two calls find in the world). *)
Theorem eciesKDF_prefix P (key_material : bytes) (n n' : Z) (w w2 : world) :
  0 <= n <= n' -> kdf_turns n' <= 4294967295 ->
  exists key tail,
    fst (eciesKDF P key_material n w) = Ok key
    /\ fst (eciesKDF P key_material n' w2) = Ok (key ++ tail).
Proof.
  intros Hn Hmax.
  assert (Hmono : kdf_turns n <= kdf_turns n').
  { unfold kdf_turns.
    assert ((n + 7) / 64 <= (n' + 7) / 64) by (apply Z.div_le_mono; lia).
    lia. }
  assert (Hpos : 0 < kdf_turns n).
  { unfold kdf_turns.
    assert (0 <= (n + 7) / 64) by (apply Z.div_pos; lia). lia. }
  rewrite !eciesKDF_run by lia. simpl fst.
  set (t := Z.to_nat (kdf_turns n)).
  replace (Z.to_nat (kdf_turns n')) with (t + (Z.to_nat (kdf_turns n') - t))%nat
    by (subst t; lia).
  rewrite Zrange_app, !map_app, concat_app.
  destruct (@upto_extends _ n n'
              (concat (map (sha256 P) (map (kdf_input key_material)
                                         (Zrange 1 t))))
              (concat (map (sha256 P)
                         (map (kdf_input key_material)
                            (Zrange (1 + Z.of_nat t)
                               (Z.to_nat (kdf_turns n') - t)))))
              Hn) as [tail Ht].
  eexists. exists tail. split; [reflexivity|]. now rewrite Ht.
Qed.

Lemma eciesKDF_prefix_witness :
  exists key tail,
    fst (eciesKDF Toy.providers Toy.key_a 16 Toy.world0) = Ok key
    /\ fst (eciesKDF Toy.providers Toy.key_a 100 (mkWorld [] [] []))
       = Ok (key ++ tail).
Proof.
  apply (@eciesKDF_prefix Toy.providers Toy.key_a 16 100 Toy.world0
           (mkWorld [] [] [])).
  - lia.
  - vm_compute. discriminate.
Defined.

(** X8: a negative length is not refused.  From -7 to -1 the loop takes
    one turn and the negative bound cuts the digest from its end, which
    with a 32-byte digest leaves 32 + key_len bytes; below -7 (and
    within the range of a float) the loop takes no turn, nothing is
    hashed and the result is empty. *)
Theorem eciesKDF_negative_length P (key_material : bytes) (key_len : Z)
    (w : world) :
  (-7 <= key_len < 0 ->
   eciesKDF P key_material key_len w
   = (Ok (upto key_len (sha256 P (kdf_input key_material 1))),
      with_calls [call_sha256 (kdf_input key_material 1)] w)
   /\ (len (sha256 P (kdf_input key_material 1)) = 32 ->
       len (upto key_len (sha256 P (kdf_input key_material 1)))
       = 32 + key_len))
  /\ (key_len < -7 -> Z.abs ((key_len + 7) * 8) < double_limit * 512 ->
      eciesKDF P key_material key_len w = (Ok [], w)).
Proof.
  split.
  - intros Hk.
    assert (Ht : kdf_turns key_len = 1).
    { unfold kdf_turns. rewrite Z.div_small; lia. }
    split.
    + rewrite eciesKDF_run_from_minus_7 by lia.
      rewrite Ht. simpl. now rewrite app_nil_r.
    + intros Hl. unfold upto, slice, slice_index.
      destruct (key_len <? 0) eqn:E; [|lia].
      rewrite Hl. simpl skipn. unfold len. rewrite length_firstn.
      unfold len in Hl. lia.
  - intros Hk Hbig. unfold eciesKDF, true_div.
    change (Z.pos (64 * 8)) with 512.
    destruct (Z.leb_spec (double_limit * 512) (Z.abs ((key_len + 7) * 8)));
      [lia|].
    unfold bind at 1. unfold lift at 1.
    change (64 * 8)%positive with 512%positive.
    assert (E : Qle_bool (inject_Z 0) ((key_len + 7) * 8 # 512) = false).
    { rewrite counter_le_reps. apply Z.leb_gt.
      apply Z.div_lt_upper_bound; lia. }
    assert (N : upto key_len (@nil byte) = [])
      by (unfold upto, slice; now rewrite skipn_nil, firstn_nil).
    unfold bind.
    destruct (Z.to_nat ((key_len + 7) * 8 / 512 + 1)); simpl;
      rewrite E; unfold ret; now rewrite N.
Qed.

Lemma eciesKDF_negative_length_witness :
  (eciesKDF Toy.providers Toy.key_a (-1) Toy.world0
   = (Ok (upto (-1) (sha256 Toy.providers (kdf_input Toy.key_a 1))),
      with_calls [call_sha256 (kdf_input Toy.key_a 1)] Toy.world0)
   /\ len (upto (-1) (sha256 Toy.providers (kdf_input Toy.key_a 1)))
      = 32 + -1)
  /\ eciesKDF Toy.providers Toy.key_a (-8) Toy.world0 = (Ok [], Toy.world0).
Proof.
  split.
  - destruct (proj1 (@eciesKDF_negative_length Toy.providers Toy.key_a (-1)
                       Toy.world0) ltac:(lia)) as (H1 & H2).
    split; [exact H1 | apply H2; vm_compute; reflexivity].
  - apply (proj2 (@eciesKDF_negative_length Toy.providers Toy.key_a (-8)
                    Toy.world0)).
    + lia.
    + vm_compute. reflexivity.
Defined.

(* ------------------------------------------------------------------ *)
(** ** More on decryption *)

Lemma slice_index_range n i : 0 <= n -> 0 <= slice_index n i <= n.
Proof. intros H. unfold slice_index. destruct (i <? 0) eqn:E; lia. Qed.

Lemma len_between {A} lo hi (l : list A) :
  len (between lo hi l)
  = Z.max 0 (slice_index (len l) hi - slice_index (len l) lo).
Proof.
  unfold between, slice.
  pose proof (slice_index_range lo (len_nonneg l)).
  pose proof (slice_index_range hi (len_nonneg l)).
  unfold len in *. rewrite length_firstn, length_skipn. lia.
Qed.

Lemma len_from_any {A} lo (l : list A) :
  len (from lo l) = len l - slice_index (len l) lo.
Proof.
  unfold from, slice.
  pose proof (slice_index_range lo (len_nonneg l)).
  unfold len in *. rewrite length_firstn, length_skipn. lia.
Qed.

Lemma guard_Ok_inv (cond : bool) k args w u w' :
  (if cond then raise k args else ret tt) w = (Ok u, w') ->
  cond = false /\ w' = w.
Proof.
  destruct cond; unfold raise, ret; intros H; inversion H; auto.
Qed.

Section MoreECIES.
Variable P : Providers.

(** What a run of [ecies_decrypt] that returns has done. *)
Lemma ecies_decrypt_inv self data m w p w' :
  ECCx.ecies_decrypt P self data m w = (Ok p, w') ->
  upto 1 data = [x04]
  /\ len (from (-32) data) = 32
  /\ len (between 65 (65 + get_blocksize P) data) = 16
  /\ 1 + len (between 1 65 data)
     + len (between 65 (65 + get_blocksize P) data)
     + len (between (65 + get_blocksize P) (-32) data)
     + len (from (-32) data) = len data
  /\ exists z,
       raw_get_ecdh_key P (privkey self) (upto 32 (between 1 65 data))
         (from 32 (between 1 65 data)) = Ok z
       /\ equals P (hmac_sha256 P (key_mac_of P z)
                      (between 65 (-32) data ++ m)) (from (-32) data) = true
       /\ ciphering P (key_enc_of P z)
            (between 65 (65 + get_blocksize P) data) 0
            (between (65 + get_blocksize P) (-32) data) = Ok p.
Proof.
  unfold ECCx.ecies_decrypt. change (1 + 64) with 65. intros H.
  apply bind_Ok_inv in H. destruct H as ([] & w1 & Hh & H).
  apply guard_Ok_inv in Hh. destruct Hh as (Hh & ->).
  apply negb_false_iff, bytes_eqb_eq in Hh.
  cbv zeta in H.
  apply bind_Ok_inv in H. destruct H as (z & w2 & Hz & H).
  apply logged_lift_inv in Hz. destruct Hz as (Hz & ->).
  apply bind_Ok_inv in H. destruct H as ([] & w3 & Ha & H).
  apply assert_Ok_inv in Ha. destruct Ha as (_ & ->).
  apply bind_Ok_inv in H. destruct H as (key & w4 & Hk & H).
  rewrite eciesKDF_32 in Hk. injection Hk as <- <-.
  apply bind_Ok_inv in H. destruct H as ([] & w5 & Ha & H).
  apply assert_Ok_inv in Ha. destruct Ha as (_ & ->).
  apply bind_Ok_inv in H. destruct H as (kmac & w6 & Hm & H).
  apply logged_ret_inv in Hm. destruct Hm as (-> & ->).
  apply bind_Ok_inv in H. destruct H as ([] & w7 & Ha & H).
  apply assert_Ok_inv in Ha. destruct Ha as (_ & ->).
  apply bind_Ok_inv in H. destruct H as ([] & w8 & Ht & H).
  apply assert_Ok_inv in Ht. destruct Ht as (Ht & ->).
  apply Z.eqb_eq in Ht.
  apply bind_Ok_inv in H. destruct H as (tag & w9 & Hm & H).
  apply logged_ret_inv in Hm. destruct Hm as (-> & ->).
  apply bind_Ok_inv in H. destruct H as (ok & w10 & He & H).
  apply logged_ret_inv in He. destruct He as (-> & ->).
  apply bind_Ok_inv in H. destruct H as ([] & w11 & Hg & H).
  apply guard_Ok_inv in Hg. destruct Hg as (Hg & ->).
  apply negb_false_iff in Hg.
  apply bind_Ok_inv in H. destruct H as (bs & w12 & Hb & H).
  apply logged_ret_inv in Hb. destruct Hb as (-> & ->).
  apply bind_Ok_inv in H. destruct H as ([] & w13 & Hiv & H).
  apply assert_Ok_inv in Hiv. destruct Hiv as (Hiv & ->).
  apply Z.eqb_eq in Hiv.
  apply bind_Ok_inv in H. destruct H as ([] & w14 & Hs & H).
  apply assert_Ok_inv in Hs. destruct Hs as (Hs & ->).
  apply Z.eqb_eq in Hs.
  apply logged_lift_inv in H. destruct H as (Hc & _).
  split; [exact Hh|]. split; [exact Ht|]. split; [exact Hiv|].
  split; [exact Hs|].
  exists z. split; [exact Hz|]. split; [exact Hg | exact Hc].
Qed.

End MoreECIES.

(** X9: [ecies_decrypt] returns a plaintext only for an envelope that
    starts with 0x04, is at least 113 bytes long, and whose last 32
    bytes the library's comparison accepted as the MAC of
    [data[65:-32] ‖ shared_mac_data] under the key derived from the key
    agreement with [data[1:65]]; the plaintext is then the cipher's
    output for [data[65 + blocksize:-32]] under the IV
    [data[65:65 + blocksize]].  A shorter input never decrypts. *)
Theorem ecies_decrypt_returns_only_verified P (self : ECCx.t)
    (data shared_mac_data : bytes) (w : world) (p : bytes) (w' : world) :
  ECCx.ecies_decrypt P self data shared_mac_data w = (Ok p, w') ->
  113 <= len data
  /\ upto 1 data = [x04]
  /\ exists z,
       raw_get_ecdh_key P (privkey self) (upto 32 (between 1 65 data))
         (from 32 (between 1 65 data)) = Ok z
       /\ equals P (hmac_sha256 P (key_mac_of P z)
                      (between 65 (-32) data ++ shared_mac_data))
            (from (-32) data) = true
       /\ ciphering P (key_enc_of P z)
            (between 65 (65 + get_blocksize P) data) 0
            (between (65 + get_blocksize P) (-32) data) = Ok p.
Proof.
  intros H. apply ecies_decrypt_inv in H.
  destruct H as (Hh & Ht & Hiv & Hs & Hz).
  split; [|split; assumption].
  rewrite Hiv, Ht in Hs. clear Ht Hz Hh.
  rewrite !len_between in *.
  pose proof (len_nonneg data) as Hn.
  unfold slice_index in *.
  set (n := len data) in *. set (bs := get_blocksize P) in *.
  destruct (65 + bs <? 0) eqn:E1; destruct (65 <? 0) eqn:E2;
    destruct (-32 <? 0) eqn:E3; destruct (1 <? 0) eqn:E4; lia.
Qed.

Lemma ecies_decrypt_returns_only_verified_witness :
  113 <= len Toy.envelope0
  /\ upto 1 Toy.envelope0 = [x04]
  /\ exists z,
       raw_get_ecdh_key Toy.providers (privkey (Toy.pair_of Toy.key_a))
         (upto 32 (between 1 65 Toy.envelope0))
         (from 32 (between 1 65 Toy.envelope0)) = Ok z
       /\ equals Toy.providers
            (hmac_sha256 Toy.providers (key_mac_of Toy.providers z)
               (between 65 (-32) Toy.envelope0 ++ [x07]))
            (from (-32) Toy.envelope0) = true
       /\ ciphering Toy.providers (key_enc_of Toy.providers z)
            (between 65 (65 + get_blocksize Toy.providers) Toy.envelope0) 0
            (between (65 + get_blocksize Toy.providers) (-32) Toy.envelope0)
          = Ok [x61; x62; x63].
Proof.
  destruct (ECCx.ecies_decrypt Toy.providers (Toy.pair_of Toy.key_a)
              Toy.envelope0 [x07] Toy.world0) as [r w'] eqn:E.
  assert (Hr : r = Ok [x61; x62; x63])
    by (vm_compute in E; now injection E as <- _).
  subst r.
  exact (@ecies_decrypt_returns_only_verified Toy.providers _ _ _ _ _ _ E).
Defined.

(** X10: when the comparison refuses the tag, [ecies_decrypt] raises
    [DecryptionError('Fail to verify data')] and that is all it does:
    the calls made are the key agreement, the two SHA-256 of the key
    derivation, the HMAC and the comparison; the cipher is not called,
    so nothing of the plaintext is computed before the tag is
    verified. *)
Theorem ecies_decrypt_bad_tag P (self : ECCx.t) (data shared_mac_data : bytes)
    (w : world) (z : bytes) :
  upto 1 data = [x04] ->
  raw_get_ecdh_key P (privkey self) (upto 32 (between 1 65 data))
    (from 32 (between 1 65 data)) = Ok z ->
  len z = 32 ->
  (forall x, len (sha256 P x) = 32) ->
  32 <= len data ->
  equals P (hmac_sha256 P (key_mac_of P z)
              (between 65 (-32) data ++ shared_mac_data))
    (from (-32) data) = false ->
  ECCx.ecies_decrypt P self data shared_mac_data w
  = (Raise (Exn DecryptionError ["Fail to verify data"%string]),
     with_calls
       [call_ecdh (privkey self) (upto 32 (between 1 65 data))
          (from 32 (between 1 65 data));
        call_sha256 (kdf_input z 1);
        call_sha256 (from 16 (upto 32 (sha256 P (kdf_input z 1))));
        call_hmac_sha256 (key_mac_of P z)
          (between 65 (-32) data ++ shared_mac_data);
        call_equals
          (hmac_sha256 P (key_mac_of P z)
             (between 65 (-32) data ++ shared_mac_data))
          (from (-32) data)] w).
Proof.
  intros Hh Hz Hlz Hsha Hn He.
  unfold ECCx.ecies_decrypt. change (1 + 64) with 65.
  rewrite Hh, bytes_eqb_refl. simpl negb. cbv iota.
  erewrite bind_Ok by reflexivity. cbv zeta.
  unfold ecc_raw_get_ecdh_key.
  erewrite logged_lift_run by exact Hz.
  rewrite assert_run by (rewrite Hlz; reflexivity).
  erewrite bind_Ok by apply eciesKDF_32.
  rewrite assert_run by (rewrite len_upto, Hsha by lia; reflexivity).
  unfold hashlib_sha256. rewrite logged_ret_run.
  rewrite assert_run by (rewrite Hsha; reflexivity).
  rewrite assert_run.
  2:{ rewrite len_from_any. unfold slice_index.
      change (-32 <? 0) with true. cbv iota. apply Z.eqb_eq. lia. }
  unfold pyelliptic_hmac_sha256. rewrite logged_ret_run.
  unfold pyelliptic_equals. rewrite logged_ret_run.
  fold (key_mac_of P z). rewrite He. simpl negb. cbv iota.
  unfold bind, raise. rewrite !with_calls_app. reflexivity.
Qed.

Lemma ecies_decrypt_bad_tag_witness :
  fst (ECCx.ecies_decrypt Toy.providers (Toy.pair_of Toy.key_a)
         Toy.envelope0 [x08] Toy.world0)
  = Raise (Exn DecryptionError ["Fail to verify data"%string]).
Proof.
  rewrite (@ecies_decrypt_bad_tag Toy.providers (Toy.pair_of Toy.key_a)
             Toy.envelope0 [x08] Toy.world0
             (Toy.xor_bytes Toy.key_a Toy.key_b)).
  - reflexivity.
  - vm_compute. reflexivity.
  - vm_compute. reflexivity.
  - vm_compute. reflexivity.
  - apply ToyFacts.len_digest.
  - vm_compute. discriminate.
  - vm_compute. reflexivity.
Defined.

(* ------------------------------------------------------------------ *)
(** ** More on signatures *)

Section MoreSignatures.
Variable P : Providers.

Lemma sha3_Ok_inv m h w w' :
  sha3 P m w = (Ok h, w') ->
  exists d,
    as_bytes m = Ok d /\ h = sha3_256 P d
    /\ w' = with_calls [call_sha3_256 d] w.
Proof.
  unfold sha3. intros H.
  apply bind_Ok_inv in H. destruct H as (d & w1 & Hd & H).
  apply logged_ret_inv in H. destruct H as (-> & ->).
  exists d. destruct m as [s|b].
  - apply lift_Ok_inv in Hd. destruct Hd as (Hd & ->). auto.
  - injection Hd as -> ->. auto.
Qed.

(** [ECCx.sign] on a valid object, under the laws. *)
Lemma sign_run (self : ECCx.t) m d w :
  ProviderLaws P -> valid_object P self -> as_bytes m = Ok d ->
  exists sig w1,
    ECCx.sign P self m w = (Ok sig, w1)
    /\ len sig = 65
    /\ recover P sig (sha3_256 P d) = Ok ([x04] ++ ECCx.raw_pubkey self).
Proof.
  intros L (_ & _ & Hc) Hd.
  destruct (@sign_recover P L _ _ _ (sha3_256 P d) Hc)
    as (Hpk & sig & Hs & H65 & Hr).
  rewrite upto_from in Hr by lia.
  exists sig. eexists. split; [|split; assumption].
  unfold ECCx.sign, ecdsa_sign, coincurve_PrivateKey,
    coincurve_sign_recoverable.
  rewrite raw_privkey_eq.
  unfold bind at 1. unfold bind at 1. unfold bind at 1. unfold bind at 1.
  unfold log at 1. unfold bind at 1. unfold lift at 1. rewrite Hpk.
  unfold ret at 1.
  unfold bind at 1. erewrite sha3_run by eassumption.
  unfold bind at 1. unfold log at 1. unfold lift at 1. rewrite Hs.
  rewrite H65. reflexivity.
Qed.

End MoreSignatures.

(** X11: [ecdsa_verify] looks at the public key first: a key that is
    not 64 bytes long raises [InvalidKeys] with nothing hashed and
    nothing asked of the library.  With a 64-byte key, whatever the
    library raises while recovering the signer comes out as
    [CoincurveError] without arguments. *)
Theorem ecdsa_verify_failures P (pubkey signature : bytes) (message : pyobj)
    (w : world) :
  (len pubkey <> 64 ->
   ecdsa_verify P pubkey signature message w
   = (Raise (Exn InvalidKeys ["Invalid pubkey length"%string]), w))
  /\ (forall d e,
        len pubkey = 64 -> as_bytes message = Ok d ->
        recover P signature (sha3_256 P d) = Raise e ->
        ecdsa_verify P pubkey signature message w
        = (Raise (Exn CoincurveError []),
           with_calls [call_sha3_256 d;
                       call_recover signature (sha3_256 P d)] w)).
Proof.
  split.
  - intros H. unfold ecdsa_verify, verify_pubkey.
    destruct (Z.eqb_spec (len pubkey) 64); [contradiction | reflexivity].
  - intros d e Hl Hd Hr.
    erewrite ecdsa_verify_run by eassumption. now rewrite Hr.
Qed.

Lemma ecdsa_verify_failures_witness :
  ecdsa_verify Toy.providers [x01] [] (PyStr [55296%N]) Toy.world0
  = (Raise (Exn InvalidKeys ["Invalid pubkey length"%string]), Toy.world0)
  /\ ecdsa_verify Toy.providers (Toy.key_a ++ Toy.key_a) [] (PyBytes [x01])
       Toy.world0
     = (Raise (Exn CoincurveError []),
        with_calls [call_sha3_256 [x01];
                    call_recover [] (sha3_256 Toy.providers [x01])]
          Toy.world0).
Proof.
  split.
  - apply (proj1 (@ecdsa_verify_failures Toy.providers [x01] []
                    (PyStr [55296%N]) Toy.world0)).
    vm_compute. discriminate.
  - apply (proj2 (@ecdsa_verify_failures Toy.providers
                    (Toy.key_a ++ Toy.key_a) [] (PyBytes [x01]) Toy.world0)
             [x01] (Exn LibraryError [])).
    + vm_compute. reflexivity.
    + reflexivity.
    + vm_compute. reflexivity.
Defined.

(** X12: [ECCx.verify] never returns [False]: it returns [True] or
    raises.  When it returns, the signature has 65 bytes, the object's
    public key has 64, and the key recovered from the signature and the
    SHA3-256 digest of the message is 0x04 followed by the object's
    public key. *)
Theorem verify_returns_only_true P (self : ECCx.t) (sig : bytes)
    (inputb : pyobj) (w : world) (b : bool) (w' : world) :
  ECCx.verify P self sig inputb w = (Ok b, w') ->
  b = true
  /\ len sig = 65
  /\ len (ECCx.raw_pubkey self) = 64
  /\ exists d,
       as_bytes inputb = Ok d
       /\ recover P sig (sha3_256 P d) = Ok ([x04] ++ ECCx.raw_pubkey self).
Proof.
  unfold ECCx.verify. intros H.
  destruct (Z.eqb_spec (len sig) 65) as [H65|]; simpl in H; [|discriminate].
  unfold ecdsa_verify in H.
  apply bind_Ok_inv in H. destruct H as ([] & w1 & Hv & H).
  apply lift_Ok_inv in Hv. destruct Hv as (Hv & ->).
  apply verify_pubkey_Ok_inv in Hv.
  apply bind_Ok_inv in H. destruct H as (h & w2 & Hh & H).
  apply sha3_Ok_inv in Hh. destruct Hh as (d & Hd & -> & ->).
  apply bind_Ok_inv in H. destruct H as (pk & w3 & Hr & H).
  assert (Hrec : recover P sig (sha3_256 P d) = Ok pk).
  { unfold try_except, coincurve_recover, bind, log, lift, raise in Hr.
    destruct (recover P sig (sha3_256 P d)) as [pk'| e |];
      inversion Hr; reflexivity. }
  destruct (bytes_eqb pk ([x04] ++ ECCx.raw_pubkey self)) eqn:E;
    simpl in H; [|discriminate].
  apply bytes_eqb_eq in E. subst pk. injection H as <- _.
  split; [reflexivity|]. split; [exact H65|]. split; [exact Hv|].
  exists d. auto.
Qed.

Lemma verify_returns_only_true_witness :
  exists sig,
    fst (ECCx.sign Toy.providers (Toy.pair_of Toy.key_a) (PyBytes [x01])
           Toy.world0) = Ok sig
    /\ len sig = 65
    /\ len (ECCx.raw_pubkey (Toy.pair_of Toy.key_a)) = 64
    /\ exists d,
         as_bytes (PyBytes [x01]) = Ok d
         /\ recover Toy.providers sig (sha3_256 Toy.providers d)
            = Ok ([x04] ++ ECCx.raw_pubkey (Toy.pair_of Toy.key_a)).
Proof.
  destruct (ECCx.sign Toy.providers (Toy.pair_of Toy.key_a) (PyBytes [x01])
              Toy.world0) as [[sig| e |] w1] eqn:Es;
    [| vm_compute in Es; discriminate | vm_compute in Es; discriminate].
  destruct (ECCx.verify Toy.providers (Toy.pair_of Toy.key_a) sig
              (PyBytes [x01]) w1) as [[b| e |] w2] eqn:Ev.
  - exists sig. split; [reflexivity|].
    exact (proj2 (@verify_returns_only_true Toy.providers _ _ _ _ _ _ Ev)).
  - exfalso. vm_compute in Es. injection Es as <- <-.
    vm_compute in Ev. discriminate.
  - exfalso. vm_compute in Es. injection Es as <- <-.
    vm_compute in Ev. discriminate.
Defined.

(** X13: a signature made by another key pair is refused.  Under the
    laws of the libraries, when two objects built by the constructor
    have different public keys, what one signs the other's [verify]
    rejects with [InvalidSignature] (no arguments): the recovered key is
    the signer's, not the verifier's. *)
Theorem verify_rejects_other_signer P (ka kb : option bytes)
    (wa wa' wb wb' : world) (verifier signer : ECCx.t) (m : pyobj)
    (d : bytes) (w : world) :
  ProviderLaws P ->
  ECCx.__init__ P ka wa = (Ok verifier, wa') ->
  ECCx.__init__ P kb wb = (Ok signer, wb') ->
  ECCx.raw_pubkey signer <> ECCx.raw_pubkey verifier ->
  as_bytes m = Ok d ->
  exists sig w1,
    ECCx.sign P signer m w = (Ok sig, w1)
    /\ fst (ECCx.verify P verifier sig m w1)
       = Raise (Exn InvalidSignature []).
Proof.
  intros L Ha Hb Hne Hd.
  apply init_valid in Ha, Hb.
  destruct (@sign_run P signer m d w L Hb Hd) as (sig & w1 & Hs & H65 & Hr).
  exists sig, w1. split; [exact Hs|].
  unfold ECCx.verify. rewrite H65.
  change (negb (65 =? 65)) with false. cbv iota.
  destruct Ha as (H64 & _).
  erewrite ecdsa_verify_run by eassumption. rewrite Hr.
  destruct (bytes_eqb ([x04] ++ ECCx.raw_pubkey signer)
              ([x04] ++ ECCx.raw_pubkey verifier)) eqn:E; [|reflexivity].
  apply bytes_eqb_eq in E. injection E as E. contradiction.
Qed.

Lemma verify_rejects_other_signer_witness :
  exists sig w1,
    ECCx.sign Toy.providers (Toy.pair_of Toy.key_b) (PyBytes [x01])
      Toy.world0 = (Ok sig, w1)
    /\ fst (ECCx.verify Toy.providers (Toy.pair_of Toy.key_a) sig
              (PyBytes [x01]) w1)
       = Raise (Exn InvalidSignature []).
Proof.
  eapply (@verify_rejects_other_signer Toy.providers (Some Toy.key_a)
            (Some Toy.key_b) Toy.world0 _ Toy.world0 _
            (Toy.pair_of Toy.key_a) (Toy.pair_of Toy.key_b)
            (PyBytes [x01]) [x01] Toy.world0 ToyFacts.laws).
  - vm_compute. reflexivity.
  - vm_compute. reflexivity.
  - vm_compute. discriminate.
  - reflexivity.
Defined.

(** X14: whatever [ECCx.sign] returns has 65 bytes: it is what the
    library signed, with the object's private key, over the SHA3-256
    digest of the message, after the library accepted the key; a
    signature of another length is an [AssertionError], not a result. *)
Theorem sign_returns_65_bytes P (self : ECCx.t) (inputb : pyobj) (w : world)
    (signature : bytes) (w' : world) :
  ECCx.sign P self inputb w = (Ok signature, w') ->
  len signature = 65
  /\ exists d,
       as_bytes inputb = Ok d
       /\ private_key P (privkey self) = Ok tt
       /\ sign_recoverable P (privkey self) (sha3_256 P d) = Ok signature.
Proof.
  unfold ECCx.sign, ecdsa_sign. rewrite raw_privkey_eq. intros H.
  apply bind_Ok_inv in H. destruct H as (s & w1 & Hs & H).
  apply bind_Ok_inv in H. destruct H as ([] & w2 & Ha & H).
  apply assert_Ok_inv in Ha. destruct Ha as (Ha & ->).
  apply Z.eqb_eq in Ha. injection H as <- <-.
  apply bind_Ok_inv in Hs. destruct Hs as (pk & w3 & Hp & Hs).
  unfold coincurve_PrivateKey in Hp.
  apply bind_Ok_inv in Hp. destruct Hp as ([] & w4 & _ & Hp).
  apply bind_Ok_inv in Hp. destruct Hp as ([] & w5 & Hp & Hq).
  apply lift_Ok_inv in Hp. destruct Hp as (Hp & ->).
  injection Hq as <- <-.
  apply bind_Ok_inv in Hs. destruct Hs as (h & w6 & Hh & Hs).
  apply sha3_Ok_inv in Hh. destruct Hh as (d & Hd & -> & ->).
  apply logged_lift_inv in Hs. destruct Hs as (Hs & _).
  split; [exact Ha|]. exists d. auto.
Qed.

Lemma sign_returns_65_bytes_witness :
  exists signature,
    fst (ECCx.sign Toy.providers (Toy.pair_of Toy.key_a) (PyStr [104%N])
           Toy.world0) = Ok signature
    /\ len signature = 65
    /\ exists d,
         as_bytes (PyStr [104%N]) = Ok d
         /\ private_key Toy.providers (privkey (Toy.pair_of Toy.key_a))
            = Ok tt
         /\ sign_recoverable Toy.providers (privkey (Toy.pair_of Toy.key_a))
              (sha3_256 Toy.providers d) = Ok signature.
Proof.
  destruct (ECCx.sign Toy.providers (Toy.pair_of Toy.key_a) (PyStr [104%N])
              Toy.world0) as [[sig| e |] w1] eqn:Es;
    [| vm_compute in Es; discriminate | vm_compute in Es; discriminate].
  exists sig. split; [reflexivity|].
  exact (@sign_returns_65_bytes Toy.providers _ _ _ _ _ Es).
Defined.

(** X15: [ecies_encrypt] hands the recipient's key to the library as it
    is, cut after 32 bytes, with no check of its own (no
    [verify_pubkey]): when the key agreement raises, for a key of the
    wrong length say, that exception is what [ecies_encrypt] raises, and
    no IV has been drawn. *)
Theorem ecies_encrypt_ecdh_error P (data raw_pubkey shared_mac_data : bytes)
    (w : world) (skipped : list ECC) (k : ECC) (ks : list ECC) (e : exn) :
  keygen w = skipped ++ k :: ks -> Forall short_key skipped ->
  good_pair P k ->
  raw_get_ecdh_key P (privkey k) (upto 32 raw_pubkey) (from 32 raw_pubkey)
  = Raise e ->
  fst (ECCx.ecies_encrypt P data raw_pubkey shared_mac_data w) = Raise e
  /\ ivs (snd (ECCx.ecies_encrypt P data raw_pubkey shared_mac_data w))
     = ivs w.
Proof.
  intros Hk Hs Hg He.
  destruct (@init_generate P w skipped k ks Hk Hs Hg) as [l Hinit].
  unfold ECCx.ecies_encrypt.
  erewrite bind_Ok by exact Hinit.
  unfold ecc_raw_get_ecdh_key.
  unfold bind at 1. unfold bind at 1. unfold log at 1. unfold lift at 1.
  rewrite He. split; reflexivity.
Qed.

Lemma ecies_encrypt_ecdh_error_witness :
  fst (ECCx.ecies_encrypt Toy.providers [x61] [x01; x02] [] Toy.world0)
  = Raise (Exn LibraryError [])
  /\ ivs (snd (ECCx.ecies_encrypt Toy.providers [x61] [x01; x02] []
                 Toy.world0)) = ivs Toy.world0.
Proof.
  apply (@ecies_encrypt_ecdh_error Toy.providers [x61] [x01; x02] []
           Toy.world0 [Toy.pair_of Toy.key_short] (Toy.pair_of Toy.key_b) []).
  - reflexivity.
  - constructor; [|constructor]. split; vm_compute; discriminate.
  - repeat split; vm_compute; reflexivity.
  - vm_compute. reflexivity.
Defined.
